(** * spdz-client-lib: a shallow embedding of the protocol core

    The development follows the JavaScript sources module by module:
    - [JS]              thrown errors, the result monad, [Array.prototype.map]
                        and [reduce];
    - [BigInt]          the part of the big-integer package that [Gfp] calls;
    - [Gfp]             math/Gfp.js;
    - [Binary]          utility/binary.js;
    - [BinaryToArray]   type_mapping/binaryToArray.js;
    - [BinaryToShare]   type_mapping/binaryToShare.js;
    - [ListComparison]  utility/listComparison.js;
    - [Number], [Value] JavaScript numbers and the values of an input list;
    - [NumericConversions]  math/numericConversions.js;
    - [Transform]       socket_api/transform.js;
    - [Crypto]          crypto/index.js over an abstract secretbox primitive;
    - [Spec]            the reference definitions the properties are stated
                        against.

    Arbitrary-precision integers are [Z], a [Uint8Array] is a [list byte],
    a thrown exception is the [Throw] branch of [JS.result]. *)

From Stdlib Require Import ZArith List String Ascii Bool Lia QArith Qround.
From Stdlib Require Import Qpower Qfield.
From Stdlib.Strings Require Import Byte.
Import ListNotations.

#[local] Open Scope Z_scope.

(* ------------------------------------------------------------------ *)
(** ** JavaScript runtime fragments *)

Module JS.

(** Length-check messages built by [checkBuffer] and [checkBufferLength];
    the list that is joined with a newline is kept as a list. *)
Inductive lengthMsg : Type :=
| WrongLength (index : nat) (len : nat) (intSize : Z)
    (* 'Spdz proxy i provided n bytes, expected multiple of s.' *)
| WrongType
    (* 'Expect array of Uint8Array type, got a ...' *)
| WrongTripleLength (index : nat) (len : nat)
    (* 'Spdz proxy i provided triple with n bytes, must be a multiple of 48.' *)
| NotSameByteLength.
    (* 'Shares from each proxy are expected to be the same byte length.' *)

(** One constructor per message the sources throw or assert. *)
Inductive message : Type :=
| GfpExceedsField (v : Z)
| IntegerExceedsField (v : Z)
| OverflowToJSInteger (v : Z)
| AddRequiresGfp
| MultRequiresGfp
| InvalidDigit (c : ascii)
| NotCoPrime
| NoDataToExtract
| LengthCheck (msgs : list lengthMsg)
| NotAllSame
| RequiresArray
| RequiresUint8Array
| TripleFailedCheck
| ExpectNonZeroResponse
| UserInputMustBeNumbers
| IntegerPartExceeded (bits : Z)
| CipherTooShort
| AuthenticationFailed
| ReduceOfEmptyArray
| PropertyOfUndefined (name : string).

Inductive exn : Type :=
| Error (m : message)
| TypeError (m : message)
| AssertionError (m : message).

Inductive result (A : Type) : Type :=
| Return (a : A)
| Throw (e : exn).

Arguments Return {A} a.
Arguments Throw {A} e.

Definition bind {A B} (r : result A) (k : A -> result B) : result B :=
  match r with
  | Return a => k a
  | Throw e => Throw e
  end.

Definition isThrow {A} (r : result A) : bool :=
  match r with Return _ => false | Throw _ => true end.

(** [assert(cond, msg)] of the assert package. *)
Definition assert (cond : bool) (m : message) : result unit :=
  if cond then Return tt else Throw (AssertionError m).

(** [Array.prototype.map] with a callback that may throw: elements are
    visited from the left and the first exception escapes. *)
Fixpoint mapM {A B} (f : A -> result B) (l : list A) : result (list B) :=
  match l with
  | [] => Return []
  | x :: t =>
      bind (f x) (fun y => bind (mapM f t) (fun ys => Return (y :: ys)))
  end.

(** [Array.prototype.map((value, index) => ...)] with a pure callback. *)
Fixpoint mapi_from {A B} (f : A -> nat -> B) (i : nat) (l : list A) : list B :=
  match l with
  | [] => []
  | x :: t => f x i :: mapi_from f (S i) t
  end.

Definition mapi {A B} (f : A -> nat -> B) (l : list A) : list B :=
  mapi_from f 0 l.

(** The loop of [Array.prototype.reduce]: the callback gets the
    accumulator, the current element and its index. *)
Fixpoint reduce_from {A B} (f : B -> A -> nat -> B) (i : nat) (acc : B)
         (l : list A) : B :=
  match l with
  | [] => acc
  | x :: t => reduce_from f (S i) (f acc x i) t
  end.

(** [reduce(callback, initialValue)]. *)
Definition reduce {A B} (f : B -> A -> nat -> B) (init : B) (l : list A) : B :=
  reduce_from f 0 init l.

(** [reduce(callback)] with no initial value: the first element seeds the
    accumulator and the callback starts at index 1; on an empty array the
    runtime throws a TypeError.  JavaScript is untyped, [inj] says how an
    element sits in the accumulator's type. *)
Definition reduce1 {A B} (inj : A -> B) (f : B -> A -> nat -> B)
           (l : list A) : result B :=
  match l with
  | [] => Throw (TypeError ReduceOfEmptyArray)
  | x :: t => Return (reduce_from f 1 (inj x) t)
  end.

(** [range(length)] of binaryToShare.js: [0, 1, .. length-1]. *)
Definition range (length : nat) : list nat := seq 0 length.

(** [TypedArray.prototype.slice(begin, end)] for [0 <= begin <= end]. *)
Definition slice {A} (l : list A) (b e : nat) : list A :=
  firstn (e - b) (skipn b l).

End JS.

Declare Scope js_scope.
Delimit Scope js_scope with js.
Notation "x <- e ;; k" := (JS.bind e (fun x => k))
  (at level 61, e at next level, right associativity) : js_scope.
Notation "e ;;; k" := (JS.bind e (fun _ => k))
  (at level 61, right associativity) : js_scope.
#[local] Open Scope js_scope.

(* ------------------------------------------------------------------ *)
(** ** big-integer *)

Module BigInt.

#[local] Open Scope char_scope.

(** Digit alphabet of [toString(radix)]. *)
Definition hexDigit (d : Z) : ascii :=
  match d with
  | 0 => "0" | 1 => "1" | 2 => "2" | 3 => "3"
  | 4 => "4" | 5 => "5" | 6 => "6" | 7 => "7"
  | 8 => "8" | 9 => "9" | 10 => "a" | 11 => "b"
  | 12 => "c" | 13 => "d" | 14 => "e" | _ => "f"
  end.

#[local] Close Scope char_scope.

(** Value of a character as a base-16 digit, from its character code; the
    parser lower-cases its input first, so both cases are read. *)
Definition digitValue (c : ascii) : option Z :=
  let code := Z.of_N (N_of_ascii c) in
  if (48 <=? code) && (code <=? 57) then Some (code - 48)
  else if (97 <=? code) && (code <=? 102) then Some (code - 87)
  else if (65 <=? code) && (code <=? 70) then Some (code - 55)
  else None.

(** Digits of a non-negative [n], most significant first, pushed in front
    of [acc]; [fuel] bounds the number of digits. *)
Fixpoint toHex (fuel : nat) (n : Z) (acc : string) : string :=
  match fuel with
  | O => acc
  | S fuel' =>
      let acc' := String (hexDigit (n mod 16)) acc in
      if n / 16 =? 0 then acc' else toHex fuel' (n / 16) acc'
  end.

Definition digitFuel (n : Z) : nat := S (Z.to_nat (Z.log2 n)).

(** [value.toString(16)]: minimal lower-case digits, "0" for zero and a
    leading minus sign for a negative value. *)
Definition toString16 (z : Z) : string :=
  if z <? 0 then String "-"%char (toHex (digitFuel (- z)) (- z) ""%string)
  else toHex (digitFuel z) z ""%string.

(** Horner loop of the base-16 parser. *)
Fixpoint parseDigits (s : string) (acc : Z) : JS.result Z :=
  match s with
  | EmptyString => JS.Return acc
  | String c s' =>
      match digitValue c with
      | Some d => parseDigits s' (acc * 16 + d)
      | None => JS.Throw (JS.Error (JS.InvalidDigit c))
      end
  end.

(** [bigInt(text, 16)]. *)
Definition parse16 (s : string) : JS.result Z :=
  match s with
  | String "-"%char s' => v <- parseDigits s' 0 ;; JS.Return (- v)
  | _ => parseDigits s 0
  end.

(** The loop of [modInv]: extended Euclid on [(t, newT, r, newR)]. *)
Fixpoint modInvLoop (fuel : nat) (t newT r newR : Z) : Z * Z :=
  match fuel with
  | O => (t, r)
  | S fuel' =>
      if newR =? 0 then (t, r)
      else
        let q := Z.quot r newR in
        modInvLoop fuel' newT (t - q * newT) newR (r - q * newR)
  end.

(** [this.modInv(n)]. *)
Definition modInv (this n : Z) : JS.result Z :=
  let fuel := S (Z.to_nat (2 * (Z.log2 (Z.abs this) + Z.log2 (Z.abs n) + 2))) in
  let '(t, r) := modInvLoop fuel 0 1 n (Z.abs this) in
  if negb (Z.abs r =? 1) then JS.Throw (JS.Error JS.NotCoPrime)
  else
    let t := if t <? 0 then t + n else t in
    if this <? 0 then JS.Return (- t) else JS.Return t.

(** [a.mod(b)] is the remainder of truncated division: it takes the sign
    of [a]. *)
Definition mod_ (a b : Z) : Z := Z.rem a b.

(** [a.divide(b)] truncates towards zero. *)
Definition divide (a b : Z) : Z := Z.quot a b.

End BigInt.

(* ------------------------------------------------------------------ *)
(** ** math/Gfp.js *)

Module Gfp.

Definition INTEGER_LENGTH_BYTES : Z := 16.
Definition GFP_PRIME : Z := 172035116406933162231178957667602464769.
Definition GFP_NEGATIVE_BOUNDARY : Z := BigInt.divide GFP_PRIME 2.
Definition MIN_NEGATIVE : Z := GFP_NEGATIVE_BOUNDARY - GFP_PRIME.
Definition R : Z := 2 ^ (INTEGER_LENGTH_BYTES * 8).
Definition R_INVERSE : Z :=
  Eval vm_compute in
    match BigInt.modInv R GFP_PRIME with
    | JS.Return z => z
    | JS.Throw _ => 0
    end.

Definition MIN_SAFE_INTEGER : Z := - (2 ^ 53 - 1).
Definition MAX_SAFE_INTEGER : Z := 2 ^ 53 - 1.

(** Process-wide fixed point parameters [(f, k)], defaults (20, 40). *)
Record fixParams : Type := mkFixParams
  { fix_decimal_bitlength : Z; fix_whole_bitlength : Z }.

Definition defaultFixParams : fixParams := mkFixParams 20 40.

Definition initFixedPointParams (f k : Z) : fixParams := mkFixParams f k.

Definition toMontgomery (value : Z) : Z :=
  BigInt.mod_ (value * R) GFP_PRIME.

Definition fromMontgomery (value : Z) : Z :=
  BigInt.mod_ (value * R_INVERSE) GFP_PRIME.

Definition fromGfpMapping (bigIntGfp : Z) : Z :=
  if bigIntGfp >=? GFP_NEGATIVE_BOUNDARY then bigIntGfp - GFP_PRIME
  else bigIntGfp.

(** An instance holds the single field [val]. *)
Record t : Type := mk { val : Z }.

(** [new Gfp(value, isMapped)]. *)
Definition new (value : Z) (isMapped : bool) : JS.result t :=
  if isMapped then
    if (value <? 0) || (value >? GFP_PRIME)
    then JS.Throw (JS.Error (JS.GfpExceedsField value))
    else JS.Return (mk value)
  else
    if (value <? MIN_NEGATIVE) || (value >=? GFP_NEGATIVE_BOUNDARY)
    then JS.Throw (JS.Error (JS.IntegerExceedsField value))
    else JS.Return
           (mk (toMontgomery (if value <? 0 then value + GFP_PRIME else value))).

(** [Gfp.fromUserInput(integerString)]; the argument is the integer the
    decimal string denotes. *)
Definition fromUserInput (integer : Z) : JS.result t := new integer false.

(** [Gfp.fromSpdz(hexString)]. *)
Definition fromSpdz (hexString : string) : JS.result t :=
  v <- BigInt.parse16 hexString ;; new v true.

Definition add (this other : t) : JS.result t :=
  new (BigInt.mod_ (val this + val other) GFP_PRIME) true.

Definition multiply (this other : t) : JS.result t :=
  new (BigInt.mod_ (val this * val other * R_INVERSE) GFP_PRIME) true.

Definition getValue (this : t) : Z := val this.

Definition toNativeHexString (this : t) : string :=
  BigInt.toString16 (val this).

(** The integer that [toString] prints. *)
Definition toBigInteger (this : t) : Z :=
  fromGfpMapping (fromMontgomery (val this)).

Definition toJSInteger (this : t) : JS.result Z :=
  let bigintVal := fromGfpMapping (fromMontgomery (val this)) in
  if (bigintVal >=? MIN_SAFE_INTEGER) && (bigintVal <=? MAX_SAFE_INTEGER)
  then JS.Return bigintVal
  else JS.Throw (JS.Error (JS.OverflowToJSInteger bigintVal)).

Definition equals (this other : t) : bool := val this =? val other.

Definition integerLengthBytes : Z := INTEGER_LENGTH_BYTES.

End Gfp.

(* ------------------------------------------------------------------ *)
(** ** utility/binary.js *)

Module Binary.

Definition padHex (hex : string) : string :=
  if negb (Nat.eqb (Nat.modulo (String.length hex) 2) 0)
  then String "0"%char hex else hex.

(** The numeric value of an element of a [Uint8Array]. *)
Definition byteValue (b : byte) : Z := Z.of_N (Byte.to_N b).

(** [binaryToHex(binaryArray)]: two hex characters per byte. *)
Definition binaryToHex (binaryArray : list byte) : string :=
  JS.reduce
    (fun hexString i _ =>
       (hexString ++ padHex (BigInt.toString16 (byteValue i)))%string)
    ""%string binaryArray.

End Binary.

(* ------------------------------------------------------------------ *)
(** ** type_mapping/binaryToArray.js

    The buffers handed to this module are [Uint8Array]s that own their
    storage (they come from [slice] or from the transport), so the
    [DataView] over [byteBuffer.buffer] sees the same bytes. *)

Module BinaryToArray.

(** [checkBuffer(intSize, byteBufferList)].  Every element of the list is a
    [Uint8Array] by its type here, so the wrong-type messages are all empty
    and only the length messages survive the filter. *)
Definition checkBuffer (intSize : Z) (byteBufferList : list (list byte))
  : list JS.lengthMsg :=
  let wrongLengthMsgs :=
    JS.mapi
      (fun byteBuffer index =>
         if Z.rem (Z.of_nat (List.length byteBuffer)) intSize =? 0 then []
         else [JS.WrongLength index (List.length byteBuffer) intSize])
      byteBufferList in
  List.concat wrongLengthMsgs.

Section AllSame.
Context {A : Type}.
(** How two entries are compared: [equals] for Gfp values, [!==] for
    numbers. *)
Variable same : A -> A -> bool.

(** The [for] loop of the reducer over an [a] and a [b] of one length:
    [false] stands for the early [return NaN]. *)
Fixpoint sameEntries (a b : list A) : bool :=
  match a, b with
  | [], _ => true
  | _ :: _, [] => false
  | x :: a', y :: b' => if same x y then sameEntries a' b' else false
  end.

(** The reducer of [allSame]; the accumulator is an array or [NaN]
    ([None]).  [NaN.length] is undefined, a zero [length] is falsy. *)
Definition allSameStep (a : option (list A)) (b : list A) (_ : nat)
  : option (list A) :=
  match a with
  | None => None
  | Some a =>
      if negb (Nat.eqb (List.length a) 0) && negb (Nat.eqb (List.length b) 0)
         && Nat.eqb (List.length a) (List.length b)
      then if sameEntries a b then Some a else None
      else None
  end.

(** [allSame(list)]; [!!] of an array is true, of [NaN] false. *)
Definition allSame (list : list (list A)) : JS.result bool :=
  if Nat.eqb (List.length list) 0 then JS.Return true
  else
    r <- JS.reduce1 (@Some _) allSameStep list ;;
    JS.Return (match r with Some _ => true | None => false end).

(** [binaryToArray(byteBufferList, typeByteLength, extractBinaryIntoArray)]. *)
Definition binaryToArray (byteBufferList : list (list byte))
           (typeByteLength : Z)
           (extractBinaryIntoArray : list byte -> JS.result (list A))
  : JS.result (list A) :=
  if Nat.eqb (List.length byteBufferList) 0
  then JS.Throw (JS.Error JS.NoDataToExtract)
  else
    let chkBufLengthMessage := checkBuffer typeByteLength byteBufferList in
    if negb (Nat.eqb (List.length chkBufLengthMessage) 0)
    then JS.Throw (JS.Error (JS.LengthCheck chkBufLengthMessage))
    else
      arrayMatrix <- JS.mapM extractBinaryIntoArray byteBufferList ;;
      ok <- allSame arrayMatrix ;;
      if negb ok then JS.Throw (JS.Error JS.NotAllSame)
      else
        match arrayMatrix with
        | first :: _ => JS.Return first
        | [] => JS.Throw (JS.TypeError (JS.PropertyOfUndefined "0"))
        end.
End AllSame.

(** Consecutive groups of [size] elements, as the [i += size] loops visit
    them; [fuel] bounds the number of groups. *)
Fixpoint groupsFuel {A} (fuel : nat) (size : nat) (l : list A)
  : list (list A) :=
  match fuel with
  | O => []
  | S fuel' =>
      match l with
      | [] => []
      | _ :: _ => firstn size l :: groupsFuel fuel' size (skipn size l)
      end
  end.

Definition groups {A} (size : nat) (l : list A) : list (list A) :=
  groupsFuel (List.length l) size l.

(** Little-endian value of a group of bytes. *)
Fixpoint littleEndian (bytes : list byte) : Z :=
  match bytes with
  | [] => 0
  | b :: rest => Binary.byteValue b + 256 * littleEndian rest
  end.

(** [dv.getUint32(i, true)] on the four bytes at offset [i]. *)
Definition getUint32 (fourBytes : list byte) : Z := littleEndian fourBytes.

Definition extractInts (byteBuffer : list byte) : JS.result (list Z) :=
  JS.Return (map getUint32 (groups 4 byteBuffer)).

Definition binaryToIntArray (byteBufferList : list (list byte))
  : JS.result (list Z) :=
  binaryToArray (fun a b => a =? b) byteBufferList 4 extractInts.

(** One turn of the loop of [binaryToGfpArray]: reverse the 16 bytes,
    print them as hex, wrap the parsed value. *)
Definition gfpOfGroup (group : list byte) : JS.result Gfp.t :=
  Gfp.fromSpdz (Binary.binaryToHex (rev group)).

Definition extractGfps (byteBuffer : list byte) : JS.result (list Gfp.t) :=
  JS.mapM gfpOfGroup (groups (Z.to_nat Gfp.integerLengthBytes) byteBuffer).

Definition binaryToGfpArray (byteBufferList : list (list byte))
  : JS.result (list Gfp.t) :=
  binaryToArray Gfp.equals byteBufferList 16 extractGfps.



End BinaryToArray.

(* ------------------------------------------------------------------ *)
(** ** type_mapping/binaryToShare.js *)

Module BinaryToShare.

Definition TRIPLE_BYTES : nat := Z.to_nat (3 * Gfp.integerLengthBytes).

(** A [Triple] object; a field is [None] when the decoded array was too
    short to fill it. *)
Record Triple : Type := mkTriple
  { a : option Gfp.t; b : option Gfp.t; c : option Gfp.t }.

(** [new Triple(byteBuffer)]. *)
Definition newTriple (byteBuffer : list byte) : JS.result Triple :=
  gfpArray <- BinaryToArray.binaryToGfpArray [byteBuffer] ;;
  JS.Return (mkTriple (nth_error gfpArray 0) (nth_error gfpArray 1)
                      (nth_error gfpArray 2)).

Definition zero : JS.result Triple :=
  newTriple (repeat "000"%byte TRIPLE_BYTES).

(** [x.add(y)] on two fields: calling a method of [undefined] is a
    TypeError, a non-Gfp argument is rejected by [add] itself. *)
Definition addField (x y : option Gfp.t) : JS.result (option Gfp.t) :=
  match x, y with
  | None, _ => JS.Throw (JS.TypeError (JS.PropertyOfUndefined "add"))
  | Some _, None => JS.Throw (JS.Error JS.AddRequiresGfp)
  | Some x, Some y => r <- Gfp.add x y ;; JS.Return (Some r)
  end.

Definition checkRelation (this : Triple) : JS.result bool :=
  match a this, b this with
  | None, _ => JS.Throw (JS.TypeError (JS.PropertyOfUndefined "multiply"))
  | Some _, None => JS.Throw (JS.Error JS.MultRequiresGfp)
  | Some x, Some y =>
      p <- Gfp.multiply x y ;;
      JS.Return (match c this with
                 | Some z => Gfp.equals p z
                 | None => false
                 end)
  end.

Definition add (this triple : Triple) : JS.result Triple :=
  a' <- addField (a this) (a triple) ;;
  b' <- addField (b this) (b triple) ;;
  c' <- addField (c this) (c triple) ;;
  JS.Return (mkTriple a' b' c').

(** [checkBufferLength(clearValues)]: the per-buffer messages, then the
    same-length reduction, which has no initial value. *)
Definition checkBufferLength (clearValues : list (list byte))
  : JS.result (list JS.lengthMsg) :=
  let lengthMsgs :=
    JS.mapi
      (fun clearValue index =>
         if Nat.ltb 0 (List.length clearValue)
            && Nat.eqb (Nat.modulo (List.length clearValue) TRIPLE_BYTES) 0
         then []
         else [JS.WrongTripleLength index (List.length clearValue)])
      clearValues in
  r <- JS.reduce1 (@Some _)
         (fun (a : option (list byte)) (b : list byte) (_ : nat) =>
            match a with
            | None => None
            | Some a => if Nat.eqb (List.length a) (List.length b) then Some a else None
            end)
         clearValues ;;
  let sameLengths := match r with Some _ => true | None => false end in
  JS.Return (List.concat lengthMsgs
             ++ (if negb sameLengths then [JS.NotSameByteLength] else [])).

(** What a caller may pass: anything, an array of anything. *)
Inductive item : Type :=
| Uint8Array (bytes : list byte)
| NotUint8Array.

Inductive argument : Type :=
| NotArray
| Array (items : list item).

Definition bytesOf (i : item) : JS.result (list byte) :=
  match i with
  | Uint8Array bytes => JS.Return bytes
  | NotUint8Array => JS.Throw (JS.Error JS.RequiresUint8Array)
  end.

(** The combined triple of position [i]: one [Triple] per party, folded
    with [add] from [Triple.zero()]. *)
Definition combinedTriple (byteBufferList : list (list byte)) (i : nat)
  : JS.result Triple :=
  triples <- JS.mapM
               (fun byteBuffer =>
                  newTriple (JS.slice byteBuffer (i * TRIPLE_BYTES)
                                      ((i + 1) * TRIPLE_BYTES)))
               byteBufferList ;;
  z <- zero ;;
  JS.reduce
    (fun (sumTriple : JS.result Triple) triple _ =>
       s <- sumTriple ;; add s triple)
    (JS.Return z) triples.

(** The default export. *)
Definition binaryToShare (byteBufferList : argument)
  : JS.result (list Gfp.t) :=
  match byteBufferList with
  | NotArray => JS.Throw (JS.Error JS.RequiresArray)
  | Array items =>
      buffers <- JS.mapM bytesOf items ;;
      errorMessage <- checkBufferLength buffers ;;
      if Nat.ltb 0 (List.length errorMessage)
      then JS.Throw (JS.Error (JS.LengthCheck errorMessage))
      else
        match buffers with
        | [] => JS.Throw (JS.TypeError (JS.PropertyOfUndefined "length"))
        | first :: _ =>
            let expectedNum := Nat.div (List.length first) TRIPLE_BYTES in
            JS.mapM
              (fun i =>
                 combined <- combinedTriple buffers i ;;
                 ok <- checkRelation combined ;;
                 if negb ok then JS.Throw (JS.Error JS.TripleFailedCheck)
                 else
                   match a combined with
                   | Some x => JS.Return x
                   | None =>
                       JS.Throw (JS.TypeError (JS.PropertyOfUndefined "a"))
                   end)
              (JS.range expectedNum)
        end
  end.

End BinaryToShare.

(* ------------------------------------------------------------------ *)
(** ** utility/listComparison.js *)

Module ListComparison.

(** What the reducer's accumulator can hold: a list member, the literal
    [true], or the [NaN] sentinel. *)
Inductive slot (A : Type) : Type :=
| Member (x : A)
| True_
| NaN.

Arguments Member {A} x.
Arguments True_ {A}.
Arguments NaN {A}.

Section ListComparison.
Context {A : Type}.
(** Truthiness of a list member under [!!]. *)
Variable truthy : A -> bool.

Definition toBoolean (s : slot A) : bool :=
  match s with
  | Member x => truthy x
  | True_ => true
  | NaN => false
  end.

(** The reducer: [compare] is called on the accumulator and the next
    member. *)
Definition step (list : list A) (compare : slot A -> A -> bool)
           (a : slot A) (b : A) (index : nat) : slot A :=
  if compare a b then
    if Nat.eqb index (List.length list - 1) then True_ else Member b
  else NaN.

Definition listComparison (list : list A) (compare : slot A -> A -> bool)
  : JS.result bool :=
  if Nat.leb (List.length list) 1 then JS.Return true
  else
    r <- JS.reduce1 Member (step list compare) list ;;
    JS.Return (toBoolean r).
End ListComparison.

End ListComparison.

(* ------------------------------------------------------------------ *)
(** ** JavaScript numbers and the values a caller can put in an input list

    A finite number is the rational it denotes; multiplying by a power of
    two, [Math.round] and [Math.trunc] are exact on doubles as long as the
    product stays finite, so no rounding is modelled.  Signed zero is not
    distinguished.  Strings and objects are left out of [value]. *)

Module Number.

Inductive t : Type :=
| Finite (q : Q)
| NaN
| Infinity (negative : bool).

Definition ofZ (z : Z) : t := Finite (inject_Z z).

(** [Math.pow(2, n)] for an integer [n]. *)
Definition pow2 (n : Z) : Q := Qpower 2 n.

(** [x * y] for a finite positive [y]. *)
Definition mulPositive (x : t) (y : Q) : t :=
  match x with
  | Finite q => Finite (Qred (q * y))
  | NaN => NaN
  | Infinity s => Infinity s
  end.

(** [Math.trunc]. *)
Definition trunc (x : t) : t :=
  match x with
  | Finite q => Finite (inject_Z (Z.quot (Qnum q) (Zpos (Qden q))))
  | _ => x
  end.

(** [Math.round]: the nearest integer, halves towards plus infinity. *)
Definition round (x : t) : t :=
  match x with
  | Finite q => Finite (inject_Z (Qfloor (q + (1 # 2))))
  | _ => x
  end.

(** [x <= y] for a finite [y]. *)
Definition leFinite (x : t) (y : Q) : bool :=
  match x with
  | Finite q => Qle_bool q y
  | NaN => false
  | Infinity negative => negative
  end.

(** [Number.isInteger] on a number. *)
Definition isInteger (x : t) : bool :=
  match x with
  | Finite q => Z.rem (Qnum q) (Zpos (Qden q)) =? 0
  | _ => false
  end.

(** [x / y] for a finite positive [y]. *)
Definition divPositive (x : t) (y : Q) : t :=
  match x with
  | Finite q => Finite (Qred (q / y))
  | NaN => NaN
  | Infinity s => Infinity s
  end.

(** [x % y] for a finite positive [y]: what is left of [x] after the
    truncated quotient, with the sign of [x]; not a number off the finite
    numbers. *)
Definition remPositive (x : t) (y : Q) : t :=
  match x with
  | Finite q =>
      let quotient := (q / y)%Q in
      Finite
        (Qred (q - y * inject_Z (Z.quot (Qnum quotient) (Zpos (Qden quotient)))))
  | _ => NaN
  end.

(** [x + y]. *)
Definition add (x y : t) : t :=
  match x, y with
  | NaN, _ | _, NaN => NaN
  | Finite a, Finite b => Finite (Qred (a + b))
  | Infinity s, Finite _ | Finite _, Infinity s => Infinity s
  | Infinity s, Infinity s' => if Bool.eqb s s' then Infinity s else NaN
  end.

End Number.

Module Value.

Inductive t : Type :=
| Undefined
| Null
| Boolean (b : bool)
| Num (n : Number.t).

(** [typeof v === 'number']. *)
Definition isNumber (v : t) : bool :=
  match v with Num _ => true | _ => false end.

(** [Number.isInteger(v)]: no coercion, false off the number type. *)
Definition isInteger (v : t) : bool :=
  match v with Num n => Number.isInteger n | _ => false end.

(** The ToNumber coercion that [Math.trunc] and [*] apply. *)
Definition toNumber (v : t) : Number.t :=
  match v with
  | Undefined => Number.NaN
  | Null => Number.ofZ 0
  | Boolean true => Number.ofZ 1
  | Boolean false => Number.ofZ 0
  | Num n => n
  end.

End Value.

(* ------------------------------------------------------------------ *)
(** ** math/numericConversions.js *)

Module NumericConversions.

Definition jsNumberToShiftedInteger (number : Value.t)
           (fixedPointDecBitLength fixedPointWholeBitLength : Z)
  : JS.result Number.t :=
  let bits := fixedPointWholeBitLength - fixedPointDecBitLength in
  JS.assert
    (Number.leFinite (Number.trunc (Value.toNumber number))
                     (Number.pow2 bits - 1))
    (JS.IntegerPartExceeded bits) ;;;
  let shifted :=
    Number.trunc
      (Number.round
         (Number.mulPositive (Value.toNumber number)
                             (Number.pow2 fixedPointDecBitLength))) in
  JS.Return shifted.

Definition shiftedIntegerToJSFixed (shiftedInteger : Number.t)
           (fixedPointDecBitLength : Z) : Number.t :=
  let maxDecimal := Number.pow2 fixedPointDecBitLength in
  let significand :=
    Number.trunc (Number.divPositive shiftedInteger maxDecimal) in
  let decimal :=
    Number.divPositive (Number.remPositive shiftedInteger maxDecimal)
                       maxDecimal in
  Number.add significand decimal.

End NumericConversions.

(* ------------------------------------------------------------------ *)
(** ** math/Gfp.js, the fixed point reading of an instance *)

Module GfpFixedPoint.

(** [gfp.toJSFixedPoint()] under the fixed point parameters in force. *)
Definition toJSFixedPoint (params : Gfp.fixParams) (this : Gfp.t)
  : JS.result Number.t :=
  v <- Gfp.toJSInteger this ;;
  JS.Return
    (NumericConversions.shiftedIntegerToJSFixed
       (Number.ofZ v) (Gfp.fix_decimal_bitlength params)).

End GfpFixedPoint.

(* ------------------------------------------------------------------ *)
(** ** socket_api/transform.js *)

Module Transform.

Module EVENT_TYPE.
Definition PROXY_CONNECT : string := "Proxy connect".
Definition SPDZ_CONNECT : string := "SPDZ connect".
Definition SEND_INPUT : string := "send input".
Definition ERROR : string := "error".
Definition TIMEOUT : string := "timeout".
End EVENT_TYPE.

(** A per-party response message as connectSetup.js builds it: an event
    type, a boolean status and the remaining fields. *)
Record message : Type := mkMessage
  { eventType : string; status : bool; detail : string }.

Record response : Type := mkResponse
  { r_eventType : string; r_status : bool; r_msg : list message }.

(** [(a, b) => a.eventType === b.eventType]; [true] and [NaN] have no
    [eventType], and undefined is never [===] to a string. *)
Definition sameEventType (a : ListComparison.slot message) (b : message)
  : bool :=
  match a with
  | ListComparison.Member m => String.eqb (eventType m) (eventType b)
  | _ => false
  end.

(** [flattenResponseMessage(msgList)]; [None] is [undefined]. *)
Definition flattenResponseMessage (msgList : option (list message))
  : JS.result response :=
  JS.assert
    (match msgList with
     | None => false
     | Some l => Nat.ltb 0 (List.length l)
     end)
    JS.ExpectNonZeroResponse ;;;
  match msgList with
  | None => JS.Throw (JS.TypeError (JS.PropertyOfUndefined "length"))
  | Some msgList =>
      allSame <- ListComparison.listComparison (fun _ => true) msgList
                   sameEventType ;;
      let extractStatus :=
        JS.reduce (fun a b _ => a && status b) true msgList in
      match msgList with
      | [] => JS.Throw (JS.TypeError (JS.PropertyOfUndefined "eventType"))
      | first :: _ =>
          JS.Return
            (mkResponse
               (if allSame then eventType first else EVENT_TYPE.ERROR)
               (if allSame then extractStatus else false)
               msgList)
      end
  end.

(** Truthiness of a list member. *)
Definition truthy (v : Value.t) : bool :=
  match v with
  | Value.Undefined | Value.Null => false
  | Value.Boolean b => b
  | Value.Num (Number.Finite q) => negb (Qnum q =? 0)
  | Value.Num Number.NaN => false
  | Value.Num (Number.Infinity _) => true
  end.

(** The accumulator seen as a value: the sentinel is the number NaN. *)
Definition slotValue (s : ListComparison.slot Value.t) : Value.t :=
  match s with
  | ListComparison.Member v => v
  | ListComparison.True_ => Value.Boolean true
  | ListComparison.NaN => Value.Num Number.NaN
  end.

(** [(a, b) => typeof a === 'number' && typeof b === 'number']. *)
Definition bothNumbers (a : ListComparison.slot Value.t) (b : Value.t)
  : bool :=
  Value.isNumber (slotValue a) && Value.isNumber b.

(** [(a, b) => Number.isInteger(a) && Number.isInteger(b)]. *)
Definition bothIntegers (a : ListComparison.slot Value.t) (b : Value.t)
  : bool :=
  Value.isInteger (slotValue a) && Value.isInteger b.

(** [convertUserInput(inputList)] under the fixed point parameters in
    force. *)
Definition convertUserInput (params : Gfp.fixParams)
           (inputList : list Value.t) : JS.result (list Value.t) :=
  validNumbers <- ListComparison.listComparison truthy inputList
                    bothNumbers ;;
  if negb validNumbers then JS.Throw (JS.Error JS.UserInputMustBeNumbers)
  else
    allIntegers <- ListComparison.listComparison truthy inputList
                     bothIntegers ;;
    if allIntegers then JS.Return inputList
    else
      JS.mapM
        (fun a =>
           n <- NumericConversions.jsNumberToShiftedInteger a
                  (Gfp.fix_decimal_bitlength params)
                  (Gfp.fix_whole_bitlength params) ;;
           JS.Return (Value.Num n))
        inputList.

End Transform.

(* ------------------------------------------------------------------ *)
(** ** crypto/index.js

    The two libsodium calls are parameters; the nonce that
    [randombytes_buf] draws is an argument of [encrypt].  Messages are byte
    arrays (the hex-string form of an argument is converted by libsodium's
    [from_hex] before anything else happens). *)

Module Crypto.

Definition crypto_box_NONCEBYTES : nat := 24.
Definition crypto_secretbox_MACBYTES : nat := 16.

Section Secretbox.
Variable key : Type.
Variable crypto_secretbox_easy :
  list byte -> list byte -> key -> JS.result (list byte).
Variable crypto_secretbox_open_easy :
  list byte -> list byte -> key -> JS.result (list byte).

Definition encrypt (encryptionKey : key) (clearMessage : list byte)
           (nonce : list byte) : JS.result (list byte) :=
  macCipher <- crypto_secretbox_easy clearMessage nonce encryptionKey ;;
  JS.Return (macCipher ++ nonce).

Definition decrypt (encryptionKey : key) (cipherMessage : list byte)
  : JS.result (list byte) :=
  JS.assert
    (Nat.leb (crypto_box_NONCEBYTES + crypto_secretbox_MACBYTES)
             (List.length cipherMessage))
    JS.CipherTooShort ;;;
  let nonceStart := (List.length cipherMessage - crypto_box_NONCEBYTES)%nat in
  match crypto_secretbox_open_easy
          (JS.slice cipherMessage 0 nonceStart)
          (skipn nonceStart cipherMessage)
          encryptionKey with
  | JS.Return clear => JS.Return clear
  | JS.Throw _ => JS.Throw (JS.Error JS.AuthenticationFailed)
  end.
End Secretbox.

End Crypto.

(* ------------------------------------------------------------------ *)
(** ** socket_api/transform.js, the handlers of what the engines send

    These functions catch what they throw and hand it on as a
    [Bacon.Error] value. *)

Module TransformStreams.

Module MESSAGE_TYPE.
Definition NOTYPE : Z := 0.
Definition TRIPLE_SHARES : Z := 1.
Definition CLEAR_MODP_INT : Z := 2.
Definition INT_32 : Z := 3.
Definition CLEAR_MODP_FIX : Z := 4.
Definition values : list Z :=
  [NOTYPE; TRIPLE_SHARES; CLEAR_MODP_INT; INT_32; CLEAR_MODP_FIX].
End MESSAGE_TYPE.

(** What a [Bacon.Error] built in this file carries. *)
Inductive reason : Type :=
| Caught (e : JS.exn)
    (* the message of an exception of the modules above *)
| TooShort (given : nat)
    (* 'Message from SPDZ must be at least 8 bytes, given n.' *)
| UnknownMessageType (messageType : option Z)
    (* 'Unknown message type t.' *)
| NotHandled (messageType : Z)
    (* 'Got output stream with message type t not currently handled.' *)
| CountMismatch (inputs shares : nat).
    (* 'Trying to send n input(s) but m share(s) suppled.' *)

(** What a handler gives to the stream: a value or a [Bacon.Error]. *)
Inductive event (A : Type) : Type :=
| Next (a : A)
| BaconError (r : reason).

Arguments Next {A} a.
Arguments BaconError {A} r.

(** [try { ... } catch (err) { return new Bacon.Error(err.message) }]. *)
Definition catch {A} (r : JS.result A) : event A :=
  match r with
  | JS.Return a => Next a
  | JS.Throw e => BaconError (Caught e)
  end.

Definition extractValidateShares (byteBufferList : BinaryToShare.argument)
  : event (list Gfp.t) :=
  catch (BinaryToShare.binaryToShare byteBufferList).

Definition messageTypeExists (magicNumber : Z) : bool :=
  existsb (Z.eqb magicNumber) MESSAGE_TYPE.values.

(** A parsed message [{ messageType, data }]. *)
Record output : Type := mkOutput { messageType : Z; data : list byte }.

(** [convertOutput(dataList)] under the fixed point parameters in force;
    the numbers of the result are JavaScript numbers. *)
Definition convertOutput (params : Gfp.fixParams) (dataList : list output)
  : event (list Number.t) :=
  let messageType :=
    JS.reduce (fun (result : Z) output (_ : nat) => messageType output)
              MESSAGE_TYPE.NOTYPE dataList in
  let byteBufferList := map data dataList in
  if messageType =? MESSAGE_TYPE.CLEAR_MODP_INT then
    catch (gfpResultList <- BinaryToArray.binaryToGfpArray byteBufferList ;;
           JS.mapM (fun gfp => v <- Gfp.toJSInteger gfp ;;
                               JS.Return (Number.ofZ v))
                   gfpResultList)
  else if messageType =? MESSAGE_TYPE.INT_32 then
    catch (ints <- BinaryToArray.binaryToIntArray byteBufferList ;;
           JS.Return (map Number.ofZ ints))
  else if messageType =? MESSAGE_TYPE.CLEAR_MODP_FIX then
    catch (gfpResultList <- BinaryToArray.binaryToGfpArray byteBufferList ;;
           JS.mapM (GfpFixedPoint.toJSFixedPoint params) gfpResultList)
  else BaconError (NotHandled messageType).

Section ParseSpdzMessage.
Variable key : Type.
Variable crypto_secretbox_open_easy :
  list byte -> list byte -> key -> JS.result (list byte).

(** [parseSpdzMessage(messageBytes, encryptionKey, url)]; the key is [None]
    when it is undefined.  The url only decorates the error text. *)
Definition parseSpdzMessage (messageBytes : list byte)
           (encryptionKey : option key) : event output :=
  match (match encryptionKey with
         | Some k => Crypto.decrypt key crypto_secretbox_open_easy k messageBytes
         | None => JS.Return messageBytes
         end) with
  | JS.Throw e => BaconError (Caught e)
  | JS.Return clearBytes =>
      if negb (Nat.leb 8 (List.length clearBytes))
      then BaconError (TooShort (List.length clearBytes))
      else
        match BinaryToArray.binaryToIntArray [JS.slice clearBytes 0 4] with
        | JS.Throw e => BaconError (Caught e)
        | JS.Return ints =>
            let messageType := nth_error ints 0 in
            let remainingBytes := skipn 4 clearBytes in
            match messageType with
            | Some t =>
                if negb (messageTypeExists t)
                then BaconError (UnknownMessageType messageType)
                else Next (mkOutput t remainingBytes)
            | None => BaconError (UnknownMessageType messageType)
            end
        end
  end.
End ParseSpdzMessage.

(** The callback that [setupSendInputShareStream] maps over a pair of an
    input list and a share list, up to the hex strings that go into
    [base64Encode]. *)
Definition shareInputs (inputList : list Z) (shareList : list Gfp.t)
  : JS.result (event (list string)) :=
  if negb (Nat.eqb (List.length inputList) (List.length shareList))
  then JS.Return
         (BaconError (CountMismatch (List.length inputList)
                                    (List.length shareList)))
  else
    hexes <- JS.mapM
               (fun '(input, i) =>
                  match nth_error shareList i with
                  | None =>
                      JS.Throw (JS.TypeError (JS.PropertyOfUndefined "add"))
                  | Some share =>
                      u <- Gfp.fromUserInput input ;;
                      sharedInput <- Gfp.add share u ;;
                      JS.Return (Gfp.toNativeHexString sharedInput)
                  end)
               (combine inputList (seq 0 (List.length inputList))) ;;
    JS.Return (Next hexes).

End TransformStreams.

(* ------------------------------------------------------------------ *)
(** ** utility/verifyRequiredKeys.js *)

Module Utility.

(** An entry of [listObjects]: null or undefined, or anything else, seen
    through the names of its own properties. *)
Inductive element : Type :=
| Nullish
| Object (ownKeys : list string).

(** What the caller passes for [listObjects]: an array, or a value whose
    constructor is not [Array]. *)
Inductive argument : Type :=
| NotArray
| ArrayOf (objects : list element).

(** [obj.hasOwnProperty(key)]. *)
Definition hasOwnProperty (obj : element) (key : string) : JS.result bool :=
  match obj with
  | Nullish =>
      JS.Throw (JS.TypeError (JS.PropertyOfUndefined "hasOwnProperty"))
  | Object ownKeys => JS.Return (existsb (String.eqb key) ownKeys)
  end.

(** [Array.prototype.every] with a callback that may throw: it stops at
    the first element the callback rejects. *)
Fixpoint every {A} (p : A -> JS.result bool) (l : list A) : JS.result bool :=
  match l with
  | [] => JS.Return true
  | x :: t => b <- p x ;; if b then every p t else JS.Return false
  end.

Definition verifyRequiredKeys (listObjects : argument)
           (requiredKeys : list string) : JS.result bool :=
  match listObjects with
  | NotArray => JS.Return false
  | ArrayOf objects =>
      if Nat.eqb (List.length objects) 0 then JS.Return false
      else every (fun obj => every (hasOwnProperty obj) requiredKeys) objects
  end.

End Utility.

(* ------------------------------------------------------------------ *)
(** ** rest_api: ProxyStatusCodes.js, SpdzApiAggregate.js, SpdzApiHelper.js *)

Module RestApi.

Module ProxyStatusCodes.
Definition Disconnected : Z := 1.
Definition Connected : Z := 2.
Definition Failure : Z := 3.
End ProxyStatusCodes.

(** A connection status object [{ id, status }]. *)
Record connection : Type := mkConnection { id : nat; status : Z }.

(** [allProxiesConnected(spdzConnectionStatusList)] on an array.  An array
    has no [size] property, so [size === 0] compares undefined with 0 and
    the early return is never taken. *)
Definition allProxiesConnected (spdzConnectionStatusList : list connection)
  : bool :=
  let sizeIsZero := false in
  if sizeIsZero then false
  else
    Nat.eqb
      (List.length
         (filter (fun spdzProxyConnection =>
                    status spdzProxyConnection =? ProxyStatusCodes.Connected)
                 spdzConnectionStatusList))
      (List.length spdzConnectionStatusList).

(** The map of [sendInputsWithShares]: input [i] is added to share [i]. *)
Definition addShares (inputList : list Z) (shareList : list Gfp.t)
  : JS.result (list Gfp.t) :=
  JS.mapM
    (fun '(input, i) =>
       match nth_error shareList i with
       | None => JS.Throw (JS.TypeError (JS.PropertyOfUndefined "add"))
       | Some share => u <- Gfp.fromUserInput input ;; Gfp.add share u
       end)
    (combine inputList (seq 0 (List.length inputList))).

End RestApi.

(* ------------------------------------------------------------------ *)
(** ** Reference definitions the properties are stated against *)

Module Spec.

(** [cmp] holds for every adjacent pair of the list. *)
Fixpoint adjacent {A} (cmp : A -> A -> bool) (l : list A) : bool :=
  match l with
  | x :: (y :: _) as t => cmp x y && adjacent cmp t
  | _ => true
  end.

(** Every message carries the event type of the first one. *)
Definition allAgree (l : list Transform.message) : bool :=
  match l with
  | [] => true
  | first :: _ =>
      forallb (fun m => String.eqb (Transform.eventType m)
                                   (Transform.eventType first)) l
  end.

(** Two decoded sequences have the same length and pairwise [same]
    entries. *)
Fixpoint sameSequence {A} (same : A -> A -> bool) (a b : list A) : bool :=
  match a, b with
  | [], [] => true
  | x :: a', y :: b' => same x y && sameSequence same a' b'
  | _, _ => false
  end.


(** The field elements a buffer of 16-byte groups decodes to. *)
Definition decodeGfps (buffer : list byte) : list Gfp.t :=
  map (fun group => Gfp.mk (BinaryToArray.littleEndian group))
      (BinaryToArray.groups 16 buffer).

(** What the array decoders are to return on the parties' decoded
    sequences: the first one, when it is not empty and all others are the
    same. *)
Definition agreed {A} (same : A -> A -> bool) (first : list A)
           (rest : list (list A)) : JS.result (list A) :=
  if forallb (fun b => negb (Nat.eqb (List.length first) 0)
                       && sameSequence same first b) rest
  then JS.Return first
  else JS.Throw (JS.Error JS.NotAllSame).

(** The 16-byte little-endian field value at a byte offset. *)
Definition fieldAt (buffer : list byte) (offset : nat) : Z :=
  BinaryToArray.littleEndian (JS.slice buffer offset (offset + 16)).

(** The [i]-th 48-byte triple of one party's buffer. *)
Definition tripleAt (buffer : list byte) (i : nat) : Z * Z * Z :=
  (fieldAt buffer (48 * i), fieldAt buffer (48 * i + 16),
   fieldAt buffer (48 * i + 32)).

Definition addTriples (s t : Z * Z * Z) : Z * Z * Z :=
  let '(a, b, c) := s in
  let '(x, y, z) := t in
  ((a + x) mod Gfp.GFP_PRIME, (b + y) mod Gfp.GFP_PRIME,
   (c + z) mod Gfp.GFP_PRIME).

(** Triple [i] summed over all parties, component by component. *)
Definition combined (buffers : list (list byte)) (i : nat) : Z * Z * Z :=
  fold_left addTriples (map (fun buffer => tripleAt buffer i) buffers)
            (0, 0, 0).

(** [a.multiply(b)] equals [c] on stored Montgomery values. *)
Definition relationHolds (t : Z * Z * Z) : bool :=
  let '(a, b, c) := t in
  (a * b * Gfp.R_INVERSE) mod Gfp.GFP_PRIME =? c.

(** The [Triple] object holding three stored values. *)
Definition tripleObject (t : Z * Z * Z) : BinaryToShare.Triple :=
  let '(a, b, c) := t in
  BinaryToShare.mkTriple (Some (Gfp.mk a)) (Some (Gfp.mk b))
                         (Some (Gfp.mk c)).

Definition nonnegTriple (t : Z * Z * Z) : Prop :=
  let '(a, b, c) := t in 0 <= a /\ 0 <= b /\ 0 <= c.

(** What the share reconstruction is to return. *)
Definition shares (buffers : list (list byte)) : JS.result (list Gfp.t) :=
  let M := Nat.div (List.length (hd [] buffers)) 48 in
  let all := map (combined buffers) (seq 0 M) in
  if forallb relationHolds all
  then JS.Return (map (fun t => Gfp.mk (fst (fst t))) all)
  else JS.Throw (JS.Error JS.TripleFailedCheck).

(** Every 16-byte group of every buffer is a wire value the field type
    accepts, that is at most the prime. *)
Definition inField (buffers : list (list byte)) : bool :=
  forallb
    (fun buffer =>
       forallb (fun j => fieldAt buffer (16 * j) <=? Gfp.GFP_PRIME)
               (seq 0 (Nat.div (List.length buffer) 16)))
    buffers.

(** Big-endian value of a sequence of bytes. *)
Definition bigEndian (bytes : list byte) : Z :=
  fold_left (fun acc b => acc * 256 + Binary.byteValue b) bytes 0.

(** The buffers whose length is no multiple of [size], each with its index
    in the list, in the order of the list. *)
Definition offending (size : nat) (buffers : list (list byte))
  : list (nat * list byte) :=
  filter (fun '(_, b) => negb (Nat.eqb (Nat.modulo (List.length b) size) 0))
         (combine (seq 0 (List.length buffers)) buffers).

(** The messages of the share length validation: one for every buffer
    that is empty or no multiple of 48 bytes long, by index, then one more
    when the lengths are not all that of the first buffer. *)
Definition tripleLengthMsgs (buffers : list (list byte)) : list JS.lengthMsg :=
  map (fun '(j, b) => JS.WrongTripleLength j (List.length b))
      (filter (fun '(_, b) =>
                 negb (Nat.ltb 0 (List.length b)
                       && Nat.eqb (Nat.modulo (List.length b) 48) 0))
              (combine (seq 0 (List.length buffers)) buffers))
  ++ (if forallb (fun b => Nat.eqb (List.length (hd [] buffers))
                                   (List.length b)) buffers
      then [] else [JS.NotSameByteLength]).

(** The integer a stored Montgomery value stands for, as a residue. *)
Definition residue (g : Gfp.t) : Z := Gfp.fromMontgomery (Gfp.val g).


End Spec.

(* ================================================================== *)
(** * Properties *)

(** ** The result monad *)

Lemma bind_Return {A B} (a : A) (k : A -> JS.result B) :
  JS.bind (JS.Return a) k = k a.
Proof. reflexivity. Qed.

Lemma mapM_Return {A B} (f : A -> JS.result B) (g : A -> B) (l : list A) :
  (forall x, In x l -> f x = JS.Return (g x)) ->
  JS.mapM f l = JS.Return (map g l).
Proof.
  induction l as [|x t IH]; intros Hf; simpl.
  - reflexivity.
  - rewrite (Hf x (or_introl eq_refl)). simpl.
    rewrite IH by (intros y Hy; apply Hf; right; exact Hy).
    reflexivity.
Qed.

(** ** Strings *)

Lemma string_length_app (s1 s2 : string) :
  String.length (s1 ++ s2) = (String.length s1 + String.length s2)%nat.
Proof. induction s1 as [|ch s1 IH]; simpl; [reflexivity | now rewrite IH]. Qed.

Lemma string_app_assoc (s1 s2 s3 : string) :
  ((s1 ++ s2) ++ s3 = s1 ++ (s2 ++ s3))%string.
Proof. induction s1 as [|ch s1 IH]; simpl; [reflexivity | now rewrite IH]. Qed.

Lemma string_app_empty (s : string) : (s ++ "")%string = s.
Proof. induction s as [|ch s IH]; simpl; [reflexivity | now rewrite IH]. Qed.

(** ** big-integer: printing and parsing base 16 *)

Lemma digitValue_hexDigit d :
  0 <= d < 16 -> BigInt.digitValue (BigInt.hexDigit d) = Some d.
Proof.
  intros Hd.
  assert (Hcases : d = 0 \/ d = 1 \/ d = 2 \/ d = 3 \/ d = 4 \/ d = 5 \/ d = 6
                   \/ d = 7 \/ d = 8 \/ d = 9 \/ d = 10 \/ d = 11 \/ d = 12
                   \/ d = 13 \/ d = 14 \/ d = 15) by lia.
  repeat (destruct Hcases as [-> | Hcases]; [reflexivity|]).
  subst d. reflexivity.
Qed.

Lemma hexDigit_zero d :
  0 <= d < 16 -> BigInt.hexDigit d = "0"%char -> d = 0.
Proof.
  intros Hd Hz.
  pose proof (digitValue_hexDigit d Hd) as Hv.
  rewrite Hz in Hv. vm_compute in Hv. congruence.
Qed.

Lemma parseDigits_app s1 : forall s2 k,
  BigInt.parseDigits (s1 ++ s2) k =
  JS.bind (BigInt.parseDigits s1 k) (BigInt.parseDigits s2).
Proof.
  induction s1 as [|ch s1 IH]; intros s2 k; simpl.
  - reflexivity.
  - destruct (BigInt.digitValue ch); [apply IH | reflexivity].
Qed.

Lemma digitValue_bound ch d :
  BigInt.digitValue ch = Some d -> 0 <= d < 16.
Proof.
  unfold BigInt.digitValue. intros H.
  repeat match type of H with
         | (if ?cond then _ else _) = _ => destruct cond eqn:?
         end; try discriminate; injection H as <-;
    repeat match goal with
           | Hc : _ && _ = true |- _ => apply andb_true_iff in Hc as [? ?]
           end; lia.
Qed.

Lemma parseDigits_bound s : forall k v,
  0 <= k -> BigInt.parseDigits s k = JS.Return v ->
  0 <= v < (k + 1) * 16 ^ Z.of_nat (String.length s).
Proof.
  induction s as [|ch s IH]; intros k v Hk H; simpl in H.
  - injection H as <-. simpl. lia.
  - destruct (BigInt.digitValue ch) as [d|] eqn:Hd; [|discriminate].
    apply digitValue_bound in Hd.
    apply IH in H; [|lia].
    cbn [String.length]. rewrite Nat2Z.inj_succ, Z.pow_succ_r by lia.
    split; [lia|].
    assert (0 < 16 ^ Z.of_nat (String.length s)) by (apply Z.pow_pos_nonneg; lia).
    nia.
Qed.

(** The shape of what [toHex] pushes in front of the accumulator. *)
Lemma toHex_spec fuel : forall n acc,
  (0 < fuel)%nat -> 0 <= n < 2 ^ Z.of_nat fuel ->
  exists ds,
    BigInt.toHex fuel n acc = (ds ++ acc)%string
    /\ (forall k, BigInt.parseDigits ds k =
                  JS.Return (k * 16 ^ Z.of_nat (String.length ds) + n))
    /\ (1 <= String.length ds)%nat
    /\ (n <> 0 -> 16 ^ (Z.of_nat (String.length ds) - 1) <= n)
    /\ (n = 0 -> ds = "0"%string).
Proof.
  induction fuel as [|fuel IH]; intros n acc Hfuel Hn; [lia|].
  cbn [BigInt.toHex].
  assert (Hmod : 0 <= n mod 16 < 16) by (apply Z.mod_pos_bound; lia).
  assert (Hdiv : n = 16 * (n / 16) + n mod 16) by (apply Z.div_mod; lia).
  destruct (Z.eqb_spec (n / 16) 0) as [Hq | Hq].
  - exists (String (BigInt.hexDigit (n mod 16)) EmptyString).
    assert (Hsmall : n = n mod 16) by lia.
    split; [reflexivity|]. split; [|split; [|split]].
    + intros k. simpl. rewrite digitValue_hexDigit by exact Hmod. f_equal.
      simpl. lia.
    + simpl. lia.
    + intros Hnz. simpl. lia.
    + intros ->. reflexivity.
  - assert (Hqpos : 0 < n / 16) by (pose proof (Z.div_pos n 16); lia).
    assert (Hfuel' : (0 < fuel)%nat).
    { destruct fuel; [|lia]. simpl in Hn. lia. }
    assert (Hqb : 0 <= n / 16 < 2 ^ Z.of_nat fuel).
    { split; [lia|].
      rewrite Nat2Z.inj_succ, Z.pow_succ_r in Hn by lia.
      apply Z.div_lt_upper_bound; lia. }
    destruct (IH (n / 16) (String (BigInt.hexDigit (n mod 16)) acc) Hfuel' Hqb)
      as (ds & Heq & Hparse & Hlen & Hmin & _).
    exists (ds ++ String (BigInt.hexDigit (n mod 16)) EmptyString)%string.
    assert (Hlen' : String.length
                      (ds ++ String (BigInt.hexDigit (n mod 16)) EmptyString)
                    = S (String.length ds)).
    { rewrite string_length_app. simpl. lia. }
    split; [|split; [|split; [|split]]].
    + rewrite Heq. rewrite string_app_assoc. reflexivity.
    + intros k. rewrite parseDigits_app, Hparse. simpl.
      rewrite digitValue_hexDigit by exact Hmod. f_equal.
      rewrite Hlen', Nat2Z.inj_succ, Z.pow_succ_r by lia. lia.
    + rewrite Hlen'. lia.
    + intros _. rewrite Hlen'.
      replace (Z.of_nat (S (String.length ds)) - 1)
        with (Z.succ (Z.of_nat (String.length ds) - 1)) by lia.
      rewrite Z.pow_succ_r by lia.
      specialize (Hmin ltac:(lia)). lia.
    + intros ->. simpl in Hq. contradiction.
Qed.

Lemma digitFuel_enough n :
  0 <= n -> 0 <= n < 2 ^ Z.of_nat (BigInt.digitFuel n).
Proof.
  intros Hn. unfold BigInt.digitFuel.
  pose proof (Z.log2_nonneg n) as Hlog.
  rewrite Nat2Z.inj_succ, Z2Nat.id by exact Hlog.
  destruct (Z.eq_dec n 0) as [-> | Hnz].
  - simpl. lia.
  - pose proof (Z.log2_spec n ltac:(lia)). lia.
Qed.

Lemma parse16_parseDigits s v :
  BigInt.parseDigits s 0 = JS.Return v -> BigInt.parse16 s = JS.Return v.
Proof.
  destruct s as [|ch s]; [intros H; exact H|].
  destruct ch as [[] [] [] [] [] [] [] []]; intros H; try exact H.
  cbn in H. discriminate.
Qed.

(** Printing a non-negative integer in base 16 and reading it back. *)
Lemma toString16_spec n :
  0 <= n ->
  BigInt.parse16 (BigInt.toString16 n) = JS.Return n
  /\ (1 <= String.length (BigInt.toString16 n))%nat
  /\ (n <> 0 -> 16 ^ (Z.of_nat (String.length (BigInt.toString16 n)) - 1) <= n)
  /\ (n = 0 -> BigInt.toString16 n = "0"%string).
Proof.
  intros Hn. unfold BigInt.toString16.
  destruct (Z.ltb_spec n 0) as [Hneg | _]; [lia|].
  destruct (toHex_spec (BigInt.digitFuel n) n ""%string
              ltac:(unfold BigInt.digitFuel; lia) (digitFuel_enough n Hn))
    as (ds & Heq & Hparse & Hlen & Hmin & Hzero).
  rewrite string_app_empty in Heq. rewrite Heq.
  split; [|split; [|split]]; auto.
  apply parse16_parseDigits. rewrite Hparse. reflexivity.
Qed.

(** ** math/Gfp.js *)

Lemma GFP_PRIME_pos : 0 < Gfp.GFP_PRIME.
Proof. reflexivity. Qed.

Lemma GFP_NEGATIVE_BOUNDARY_eq :
  Gfp.GFP_NEGATIVE_BOUNDARY = Gfp.GFP_PRIME / 2.
Proof. reflexivity. Qed.

Lemma MIN_NEGATIVE_eq : Gfp.MIN_NEGATIVE = - (Gfp.GFP_PRIME / 2) - 1.
Proof. reflexivity. Qed.

Lemma GFP_PRIME_lt_R : Gfp.GFP_PRIME < Gfp.R.
Proof. reflexivity. Qed.

Lemma R_INVERSE_spec :
  (Gfp.R * Gfp.R_INVERSE) mod Gfp.GFP_PRIME = 1
  /\ 0 <= Gfp.R_INVERSE < Gfp.GFP_PRIME.
Proof. split; [reflexivity | split; [discriminate | reflexivity]]. Qed.

Lemma mod__nonneg a :
  0 <= a -> BigInt.mod_ a Gfp.GFP_PRIME = a mod Gfp.GFP_PRIME.
Proof.
  intros Ha. unfold BigInt.mod_. apply Z.rem_mod_nonneg; [exact Ha|].
  exact GFP_PRIME_pos.
Qed.

Lemma mod__range a :
  0 <= a -> 0 <= BigInt.mod_ a Gfp.GFP_PRIME < Gfp.GFP_PRIME.
Proof.
  intros Ha. rewrite mod__nonneg by exact Ha.
  apply Z.mod_pos_bound. exact GFP_PRIME_pos.
Qed.

(** Leaving Montgomery form undoes entering it. *)
Lemma fromMontgomery_toMontgomery x :
  0 <= x < Gfp.GFP_PRIME ->
  Gfp.fromMontgomery (Gfp.toMontgomery x) = x.
Proof.
  intros Hx. unfold Gfp.fromMontgomery, Gfp.toMontgomery.
  assert (HR : 0 <= Gfp.R) by discriminate.
  destruct R_INVERSE_spec as [Hinv [Hri _]].
  rewrite (mod__nonneg (x * Gfp.R)) by nia.
  pose proof (Z.mod_pos_bound (x * Gfp.R) Gfp.GFP_PRIME GFP_PRIME_pos).
  rewrite mod__nonneg by nia.
  rewrite Z.mul_mod_idemp_l by (pose proof GFP_PRIME_pos; lia).
  rewrite <- Z.mul_assoc, <- Z.mul_mod_idemp_r by (pose proof GFP_PRIME_pos; lia).
  rewrite Hinv, Z.mul_1_r. apply Z.mod_small. exact Hx.
Qed.

(** What the constructor returns on its two paths. *)
Lemma new_mapped value :
  0 <= value <= Gfp.GFP_PRIME ->
  Gfp.new value true = JS.Return (Gfp.mk value).
Proof.
  intros Hv. unfold Gfp.new.
  destruct (Z.ltb_spec value 0); [lia|].
  destruct (Z.gtb_spec value Gfp.GFP_PRIME); [lia|]. reflexivity.
Qed.

Lemma new_mapped_inv value g :
  Gfp.new value true = JS.Return g ->
  g = Gfp.mk value /\ 0 <= value <= Gfp.GFP_PRIME.
Proof.
  unfold Gfp.new.
  destruct (Z.ltb_spec value 0); [discriminate|].
  destruct (Z.gtb_spec value Gfp.GFP_PRIME); [discriminate|].
  simpl. intros H'. injection H' as <-. split; [reflexivity | lia].
Qed.

Lemma new_unmapped value :
  Gfp.MIN_NEGATIVE <= value < Gfp.GFP_NEGATIVE_BOUNDARY ->
  Gfp.new value false =
  JS.Return (Gfp.mk (Gfp.toMontgomery (value mod Gfp.GFP_PRIME))).
Proof.
  intros Hv. unfold Gfp.new.
  destruct (Z.ltb_spec value Gfp.MIN_NEGATIVE); [lia|].
  destruct (Z.geb_spec value Gfp.GFP_NEGATIVE_BOUNDARY); [lia|].
  simpl. do 3 f_equal.
  rewrite MIN_NEGATIVE_eq in Hv. rewrite GFP_NEGATIVE_BOUNDARY_eq in Hv.
  pose proof GFP_PRIME_pos as HP.
  assert (Hhalf : Gfp.GFP_PRIME / 2 < Gfp.GFP_PRIME)
    by (apply Z.div_lt; lia).
  assert (Hhalf' : Gfp.GFP_PRIME = 2 * (Gfp.GFP_PRIME / 2) + 1) by reflexivity.
  destruct (Z.ltb_spec value 0).
  - symmetry. rewrite <- (Z.mod_add value 1) by lia.
    apply Z.mod_small. lia.
  - symmetry. apply Z.mod_small. lia.
Qed.

Lemma new_unmapped_inv value g :
  Gfp.new value false = JS.Return g ->
  Gfp.MIN_NEGATIVE <= value < Gfp.GFP_NEGATIVE_BOUNDARY.
Proof.
  unfold Gfp.new.
  destruct (Z.ltb_spec value Gfp.MIN_NEGATIVE); [discriminate|].
  destruct (Z.geb_spec value Gfp.GFP_NEGATIVE_BOUNDARY); [discriminate|].
  intros _. lia.
Qed.

Lemma toMontgomery_range x :
  0 <= x -> 0 <= Gfp.toMontgomery x < Gfp.GFP_PRIME.
Proof.
  intros Hx. unfold Gfp.toMontgomery. apply mod__range.
  assert (0 <= Gfp.R) by discriminate. nia.
Qed.

(** Whatever the constructor returns holds a value between 0 and the
    prime, the prime included. *)
Lemma new_val_range value isMapped g :
  Gfp.new value isMapped = JS.Return g -> 0 <= Gfp.val g <= Gfp.GFP_PRIME.
Proof.
  destruct isMapped; intros H.
  - apply new_mapped_inv in H as [-> H]. exact H.
  - pose proof (new_unmapped_inv _ _ H) as Hr.
    rewrite (new_unmapped _ Hr) in H. injection H as <-. simpl.
    pose proof (Z.mod_pos_bound value Gfp.GFP_PRIME GFP_PRIME_pos).
    pose proof (toMontgomery_range (value mod Gfp.GFP_PRIME)). lia.
Qed.

Lemma fromUserInput_val_range v g :
  Gfp.fromUserInput v = JS.Return g -> 0 <= Gfp.val g < Gfp.GFP_PRIME.
Proof.
  unfold Gfp.fromUserInput. intros H.
  pose proof (new_unmapped_inv _ _ H) as Hr.
  rewrite (new_unmapped _ Hr) in H. injection H as <-. simpl.
  apply toMontgomery_range.
  pose proof (Z.mod_pos_bound v Gfp.GFP_PRIME GFP_PRIME_pos). lia.
Qed.

Lemma add_Return x y :
  0 <= Gfp.val x -> 0 <= Gfp.val y ->
  Gfp.add x y =
  JS.Return (Gfp.mk ((Gfp.val x + Gfp.val y) mod Gfp.GFP_PRIME)).
Proof.
  intros Hx Hy. unfold Gfp.add.
  rewrite mod__nonneg by lia.
  apply new_mapped.
  pose proof (Z.mod_pos_bound (Gfp.val x + Gfp.val y) _ GFP_PRIME_pos). lia.
Qed.

Lemma multiply_Return x y :
  0 <= Gfp.val x -> 0 <= Gfp.val y ->
  Gfp.multiply x y =
  JS.Return
    (Gfp.mk ((Gfp.val x * Gfp.val y * Gfp.R_INVERSE) mod Gfp.GFP_PRIME)).
Proof.
  intros Hx Hy. unfold Gfp.multiply.
  destruct R_INVERSE_spec as [_ [Hri _]].
  rewrite mod__nonneg by nia.
  apply new_mapped.
  pose proof (Z.mod_pos_bound (Gfp.val x * Gfp.val y * Gfp.R_INVERSE) _
                GFP_PRIME_pos). lia.
Qed.

(** The results of [add] and [multiply] are reduced residues. *)
Lemma add_val_range x y g :
  0 <= Gfp.val x -> 0 <= Gfp.val y ->
  Gfp.add x y = JS.Return g -> 0 <= Gfp.val g < Gfp.GFP_PRIME.
Proof.
  intros Hx Hy H. rewrite add_Return in H by assumption.
  injection H as <-. simpl. apply Z.mod_pos_bound. exact GFP_PRIME_pos.
Qed.

Lemma multiply_val_range x y g :
  0 <= Gfp.val x -> 0 <= Gfp.val y ->
  Gfp.multiply x y = JS.Return g -> 0 <= Gfp.val g < Gfp.GFP_PRIME.
Proof.
  intros Hx Hy H. rewrite multiply_Return in H by assumption.
  injection H as <-. simpl. apply Z.mod_pos_bound. exact GFP_PRIME_pos.
Qed.

Lemma fromGfpMapping_mod v :
  Gfp.MIN_NEGATIVE <= v < Gfp.GFP_NEGATIVE_BOUNDARY ->
  Gfp.fromGfpMapping (v mod Gfp.GFP_PRIME) = v.
Proof.
  intros Hv. unfold Gfp.fromGfpMapping.
  rewrite MIN_NEGATIVE_eq in Hv. rewrite GFP_NEGATIVE_BOUNDARY_eq in *.
  pose proof GFP_PRIME_pos as HP.
  assert (Hhalf : Gfp.GFP_PRIME = 2 * (Gfp.GFP_PRIME / 2) + 1) by reflexivity.
  destruct (Z.ltb_spec v 0) as [Hneg | Hpos].
  - assert (Hm : v mod Gfp.GFP_PRIME = v + Gfp.GFP_PRIME).
    { rewrite <- (Z.mod_add v 1) by lia. apply Z.mod_small. lia. }
    rewrite Hm. destruct (Z.geb_spec (v + Gfp.GFP_PRIME) (Gfp.GFP_PRIME / 2)); lia.
  - rewrite Z.mod_small by lia.
    destruct (Z.geb_spec v (Gfp.GFP_PRIME / 2)); lia.
Qed.

(** The integer behind an instance built from user input is that input. *)
Lemma fromUserInput_toBigInteger v :
  Gfp.MIN_NEGATIVE <= v < Gfp.GFP_NEGATIVE_BOUNDARY ->
  exists g, Gfp.fromUserInput v = JS.Return g /\ Gfp.toBigInteger g = v.
Proof.
  intros Hv. eexists. split; [apply new_unmapped; exact Hv|].
  unfold Gfp.toBigInteger. simpl.
  rewrite fromMontgomery_toMontgomery
    by (apply Z.mod_pos_bound; exact GFP_PRIME_pos).
  apply fromGfpMapping_mod. exact Hv.
Qed.

(** C2, as amended.  For every integer [v] with [-P/2 <= v < P/2],
    [Gfp.fromUserInput(v).toJSInteger()] returns exactly [v] when [v] lies
    in the safe integer range [-(2^53-1) .. 2^53-1], and throws the overflow
    error naming [v] otherwise. *)
Theorem fromUserInput_toJSInteger_roundtrip v :
  - (Gfp.GFP_PRIME / 2) <= v < Gfp.GFP_PRIME / 2 ->
  (g <- Gfp.fromUserInput v ;; Gfp.toJSInteger g) =
  if (Gfp.MIN_SAFE_INTEGER <=? v) && (v <=? Gfp.MAX_SAFE_INTEGER)
  then JS.Return v
  else JS.Throw (JS.Error (JS.OverflowToJSInteger v)).
Proof.
  intros Hv.
  assert (Hv' : Gfp.MIN_NEGATIVE <= v < Gfp.GFP_NEGATIVE_BOUNDARY).
  { rewrite MIN_NEGATIVE_eq, GFP_NEGATIVE_BOUNDARY_eq. lia. }
  destruct (fromUserInput_toBigInteger v Hv') as (g & Hg & Hint).
  rewrite Hg. simpl. unfold Gfp.toJSInteger.
  unfold Gfp.toBigInteger in Hint. rewrite Hint.
  rewrite Z.geb_leb. reflexivity.
Qed.

Lemma fromUserInput_toJSInteger_roundtrip_witness :
  (- (Gfp.GFP_PRIME / 2) <= -464646 < Gfp.GFP_PRIME / 2)
  /\ (g <- Gfp.fromUserInput (-464646) ;; Gfp.toJSInteger g)
     = JS.Return (-464646).
Proof.
  split.
  - vm_compute. split; [discriminate | reflexivity].
  - apply (fromUserInput_toJSInteger_roundtrip (-464646)).
    vm_compute. split; [discriminate | reflexivity].
Defined.

(** C2 as stated fails: 2^53 is inside the field range, and the conversion
    back throws instead of returning it. *)
Lemma fromUserInput_toJSInteger_overflow :
  (- (Gfp.GFP_PRIME / 2) <= 9007199254740992 < Gfp.GFP_PRIME / 2)
  /\ (g <- Gfp.fromUserInput 9007199254740992 ;; Gfp.toJSInteger g)
     <> JS.Return 9007199254740992.
Proof.
  split.
  - vm_compute. split; [discriminate | reflexivity].
  - vm_compute. discriminate.
Qed.

(** C3.  [Gfp.fromSpdz] accepts the wire value equal to the prime itself and
    stores it unreduced, so the instance it returns is outside [0, P). *)
Theorem fromSpdz_accepts_the_prime :
  exists g,
    Gfp.fromSpdz "816cc21a898665048576fa4690c30001" = JS.Return g
    /\ Gfp.val g = Gfp.GFP_PRIME
    /\ ~ (0 <= Gfp.val g < Gfp.GFP_PRIME).
Proof.
  exists (Gfp.mk Gfp.GFP_PRIME). split; [reflexivity|].
  split; [reflexivity|]. simpl. lia.
Qed.

(** C6, as amended.  For every Gfp value the constructor returns,
    [toNativeHexString] is the big-endian hexadecimal of the raw stored
    Montgomery value with no padding: it reads back as the stored value, has
    at least one and at most 32 characters, and starts with the digit 0 only
    when the value is zero and the string is "0".  [Gfp.fromUserInput(1234)]
    yields '6b65f311370d2ce7e9fe8f6c3d67f678'. *)
Theorem toNativeHexString_minimal_hex value isMapped g :
  Gfp.new value isMapped = JS.Return g ->
  BigInt.parse16 (Gfp.toNativeHexString g) = JS.Return (Gfp.val g)
  /\ (1 <= String.length (Gfp.toNativeHexString g) <= 32)%nat
  /\ (forall rest, Gfp.toNativeHexString g = String "0"%char rest ->
                   rest = ""%string /\ Gfp.val g = 0)
  /\ (g' <- Gfp.fromUserInput 1234 ;; JS.Return (Gfp.toNativeHexString g'))
     = JS.Return "6b65f311370d2ce7e9fe8f6c3d67f678"%string.
Proof.
  intros Hnew. apply new_val_range in Hnew.
  unfold Gfp.toNativeHexString.
  destruct (toString16_spec (Gfp.val g) ltac:(lia))
    as (Hparse & Hlen & Hmin & Hzero).
  assert (Hzero' : forall rest,
             BigInt.toString16 (Gfp.val g) = String "0"%char rest ->
             rest = ""%string /\ Gfp.val g = 0).
  { intros rest Hrest.
    destruct (Z.eq_dec (Gfp.val g) 0) as [Hz | Hnz].
    - rewrite (Hzero Hz) in Hrest. injection Hrest as <-. auto.
    - exfalso. specialize (Hmin Hnz).
      rewrite Hrest in Hparse, Hmin.
      assert (Hp : BigInt.parseDigits rest 0 = JS.Return (Gfp.val g)).
      { destruct rest as [|ch rest']; [simpl in Hparse; congruence|].
        exact Hparse. }
      apply parseDigits_bound in Hp; [|lia].
      cbn [String.length] in Hmin.
      replace (Z.of_nat (S (String.length rest)) - 1)
        with (Z.of_nat (String.length rest)) in Hmin by lia.
      lia. }
  split; [exact Hparse|]. split; [|split; [exact Hzero' | reflexivity]].
  split; [exact Hlen|].
  destruct (Z.eq_dec (Gfp.val g) 0) as [Hz | Hnz].
  - rewrite (Hzero Hz). simpl. lia.
  - specialize (Hmin Hnz).
    assert (Hlt : 16 ^ (Z.of_nat (String.length (BigInt.toString16 (Gfp.val g))) - 1)
                  < 16 ^ 32).
    { pose proof GFP_PRIME_lt_R as HR.
      change Gfp.R with (16 ^ 32) in HR. lia. }
    apply Z.pow_lt_mono_r_iff in Hlt; lia.
Qed.

Lemma toNativeHexString_minimal_hex_witness :
  Gfp.new 1234 false
  = JS.Return (Gfp.mk 142756747521148069727608861851958900344)
  /\ BigInt.parse16
       (Gfp.toNativeHexString (Gfp.mk 142756747521148069727608861851958900344))
     = JS.Return 142756747521148069727608861851958900344.
Proof.
  split; [reflexivity|].
  apply (toNativeHexString_minimal_hex 1234 false
           (Gfp.mk 142756747521148069727608861851958900344)).
  reflexivity.
Defined.

(** C6 as stated fails: the hex string of zero is the single character
    "0", not 32 characters. *)
Lemma toNativeHexString_not_padded :
  exists g,
    Gfp.fromUserInput 0 = JS.Return g
    /\ Gfp.toNativeHexString g = "0"%string
    /\ String.length (Gfp.toNativeHexString g) <> 32%nat.
Proof.
  exists (Gfp.mk 0). split; [reflexivity|]. split; [reflexivity|].
  simpl. discriminate.
Qed.

(** ** utility/listComparison.js *)

Section ListComparisonFacts.
Context {A : Type}.
Variable truthy : A -> bool.
Variable list : list A.
Variable compare : ListComparison.slot A -> A -> bool.

Variable pairwise : A -> A -> bool.
Hypothesis pairwise_compare :
  forall x y, pairwise x y = compare (ListComparison.Member x) y.

(** When every adjacent comparison passes the fold ends on [true],
    whatever the members are. *)
Lemma reduce_all_pass t : forall x i,
  (i + List.length t = List.length list)%nat -> t <> [] ->
  Spec.adjacent pairwise (x :: t) = true ->
  JS.reduce_from (ListComparison.step list compare) i
                 (ListComparison.Member x) t = ListComparison.True_.
Proof.
  induction t as [|y t IH]; intros x i Hi Hne Hadj; [congruence|].
  cbn [Spec.adjacent] in Hadj. apply andb_true_iff in Hadj as [Hxy Hadj].
  cbn [JS.reduce_from]. unfold ListComparison.step at 2.
  rewrite <- pairwise_compare, Hxy.
  destruct t as [|z t].
  - simpl in Hi.
    replace (Nat.eqb i (List.length list - 1)) with true
      by (symmetry; apply Nat.eqb_eq; lia).
    reflexivity.
  - replace (Nat.eqb i (List.length list - 1)) with false
      by (symmetry; apply Nat.eqb_neq; simpl in Hi; lia).
    apply IH; [simpl in *; lia | discriminate | exact Hadj].
Qed.

Hypothesis compare_NaN : forall b, compare ListComparison.NaN b = false.

Lemma reduce_NaN t : forall i,
  JS.reduce_from (ListComparison.step list compare) i ListComparison.NaN t
  = ListComparison.NaN.
Proof.
  induction t as [|y t IH]; intros i; [reflexivity|].
  cbn [JS.reduce_from]. unfold ListComparison.step at 2.
  rewrite compare_NaN. apply IH.
Qed.

Lemma reduce_adjacent t : forall x i,
  (i + List.length t = List.length list)%nat -> t <> [] ->
  JS.reduce_from (ListComparison.step list compare) i
                 (ListComparison.Member x) t
  = if Spec.adjacent pairwise (x :: t)
    then ListComparison.True_ else ListComparison.NaN.
Proof.
  intros x i Hi Hne.
  destruct (Spec.adjacent pairwise (x :: t)) eqn:Hadj.
  - apply reduce_all_pass; assumption.
  - revert x i Hi Hne Hadj.
    induction t as [|y t IH]; intros x i Hi Hne Hadj; [congruence|].
    cbn [Spec.adjacent] in Hadj. cbn [JS.reduce_from].
    unfold ListComparison.step at 2. rewrite <- pairwise_compare.
    destruct (pairwise x y) eqn:Hxy.
    + simpl in Hadj. destruct t as [|z t]; [discriminate|].
      replace (Nat.eqb i (List.length list - 1)) with false
        by (symmetry; apply Nat.eqb_neq; simpl in Hi; lia).
      apply IH; [simpl in *; lia | discriminate | exact Hadj].
    + apply reduce_NaN.
Qed.
End ListComparisonFacts.

(** The empty list and every one-element list compare as true. *)
Lemma listComparison_short {A} (truthy : A -> bool) compare (l : list A) :
  (List.length l <= 1)%nat ->
  ListComparison.listComparison truthy l compare = JS.Return true.
Proof.
  intros Hl. unfold ListComparison.listComparison.
  destruct (Nat.leb_spec (List.length l) 1); [reflexivity | lia].
Qed.

(** If [compare] holds for every adjacent pair the answer is true; a last
    member that is falsy cannot change that. *)
Lemma listComparison_all_pass {A} (truthy : A -> bool) compare (l : list A) :
  Spec.adjacent (fun x y => compare (ListComparison.Member x) y) l = true ->
  ListComparison.listComparison truthy l compare = JS.Return true.
Proof.
  intros Hadj. unfold ListComparison.listComparison.
  destruct (Nat.leb_spec (List.length l) 1) as [|Hlen]; [reflexivity|].
  destruct l as [|x t]; [simpl in Hlen; lia|].
  cbn [JS.reduce1 JS.bind].
  rewrite (reduce_all_pass (x :: t) compare _ (fun _ _ => eq_refl) t x 1);
    try assumption.
  - reflexivity.
  - simpl. lia.
  - destruct t; [simpl in Hlen; lia | discriminate].
Qed.

(** For a comparator that rejects the [NaN] sentinel, lists of two or more
    members compare as true exactly when every adjacent pair passes. *)
Lemma listComparison_adjacent {A} (truthy : A -> bool) compare (l : list A) :
  (forall b, compare ListComparison.NaN b = false) ->
  ListComparison.listComparison truthy l compare
  = JS.Return
      (Spec.adjacent (fun x y => compare (ListComparison.Member x) y) l).
Proof.
  intros HNaN. unfold ListComparison.listComparison.
  destruct (Nat.leb_spec (List.length l) 1) as [Hlen|Hlen].
  - destruct l as [|x [|y t]]; try reflexivity. simpl in Hlen. lia.
  - destruct l as [|x t]; [simpl in Hlen; lia|].
    cbn [JS.reduce1 JS.bind].
    rewrite (reduce_adjacent (x :: t) compare _ (fun _ _ => eq_refl) HNaN
               t x 1).
    + destruct (Spec.adjacent _ (x :: t)); reflexivity.
    + simpl. lia.
    + destruct t; [simpl in Hlen; lia | discriminate].
Qed.

(** C8.  With the comparator of [convertUserInput] the first adjacent pair
    of [[undefined, 1, 2]] fails, and [listComparison] still answers true:
    after the failure the accumulator is [NaN], which the comparator takes
    for a number. *)
Theorem listComparison_forgets_failure :
  let list := [Value.Undefined; Value.Num (Number.ofZ 1);
               Value.Num (Number.ofZ 2)] in
  Spec.adjacent
    (fun x y => Transform.bothNumbers (ListComparison.Member x) y) list
  = false
  /\ ListComparison.listComparison Transform.truthy list Transform.bothNumbers
     = JS.Return true.
Proof. split; reflexivity. Qed.

(** ** socket_api/transform.js *)

Lemma adjacent_cons {A} (cmp : A -> A -> bool) x y t :
  Spec.adjacent cmp (x :: y :: t) = cmp x y && Spec.adjacent cmp (y :: t).
Proof. reflexivity. Qed.

Lemma adjacent_sameEventType t : forall x,
  Spec.adjacent
    (fun a b => Transform.sameEventType (ListComparison.Member a) b) (x :: t)
  = forallb (fun m => String.eqb (Transform.eventType m)
                                 (Transform.eventType x)) t.
Proof.
  induction t as [|y t IH]; intros x; [reflexivity|].
  rewrite adjacent_cons, IH. cbn [forallb Transform.sameEventType].
  rewrite (String.eqb_sym (Transform.eventType x) (Transform.eventType y)).
  destruct (String.eqb_spec (Transform.eventType y) (Transform.eventType x))
    as [Heq | Hneq]; [|reflexivity].
  rewrite Heq. reflexivity.
Qed.

Lemma extractStatus_forallb l : forall i acc,
  JS.reduce_from (fun a b (_ : nat) => a && Transform.status b) i acc l
  = acc && forallb Transform.status l.
Proof.
  induction l as [|m l IH]; intros i acc; simpl.
  - now rewrite andb_true_r.
  - rewrite IH. now rewrite andb_assoc.
Qed.

(** C7.  For a non-empty list of per-party messages [flattenResponseMessage]
    returns the shared event type and the conjunction of all statuses when
    every message carries the same event type, and the Error event type with
    status false otherwise; the result always carries the input list.  On
    the empty list and on [undefined] the assertion fails. *)
Theorem flattenResponseMessage_spec :
  (forall first rest,
      let msgList := first :: rest in
      Transform.flattenResponseMessage (Some msgList)
      = JS.Return
          (Transform.mkResponse
             (if Spec.allAgree msgList then Transform.eventType first
              else Transform.EVENT_TYPE.ERROR)
             (if Spec.allAgree msgList then forallb Transform.status msgList
              else false)
             msgList))
  /\ Transform.flattenResponseMessage (Some [])
     = JS.Throw (JS.AssertionError JS.ExpectNonZeroResponse)
  /\ Transform.flattenResponseMessage None
     = JS.Throw (JS.AssertionError JS.ExpectNonZeroResponse).
Proof.
  split; [|split; reflexivity].
  intros first rest msgList. unfold Transform.flattenResponseMessage.
  cbn [JS.assert List.length Nat.ltb Nat.leb JS.bind].
  rewrite (listComparison_adjacent (fun _ => true) Transform.sameEventType
             msgList (fun b => eq_refl)).
  cbn [JS.bind]. subst msgList.
  rewrite adjacent_sameEventType.
  unfold JS.reduce. rewrite extractStatus_forallb.
  unfold Spec.allAgree. cbn [forallb].
  rewrite String.eqb_refl. reflexivity.
Qed.

(** [Spec.allAgree] says that all event types are equal. *)
Lemma allAgree_iff first rest :
  Spec.allAgree (first :: rest) = true
  <-> forall m, In m (first :: rest) ->
                Transform.eventType m = Transform.eventType first.
Proof.
  unfold Spec.allAgree. rewrite forallb_forall.
  split; intros H m Hm.
  - apply String.eqb_eq. apply H. exact Hm.
  - apply String.eqb_eq. apply H. exact Hm.
Qed.

Lemma isInteger_isNumber v : Value.isInteger v = true -> Value.isNumber v = true.
Proof. destruct v; simpl; congruence. Qed.

Lemma adjacent_all {A} (p : A -> bool) (l : list A) :
  forallb p l = true -> Spec.adjacent (fun x y => p x && p y) l = true.
Proof.
  induction l as [|x [|y t] IH]; intros H; try reflexivity.
  rewrite adjacent_cons. cbn [forallb] in H.
  apply andb_true_iff in H as [Hx H].
  rewrite (IH H). cbn [forallb] in H. apply andb_true_iff in H as [Hy _].
  now rewrite Hx, Hy.
Qed.

(** A list of integers goes through [convertUserInput] unchanged. *)
Lemma convertUserInput_integers params inputList :
  forallb Value.isInteger inputList = true ->
  Transform.convertUserInput params inputList = JS.Return inputList.
Proof.
  intros Hint. unfold Transform.convertUserInput.
  rewrite (listComparison_all_pass Transform.truthy Transform.bothNumbers).
  - cbn [JS.bind negb].
    rewrite (listComparison_all_pass Transform.truthy Transform.bothIntegers).
    + reflexivity.
    + apply (adjacent_all Value.isInteger). exact Hint.
  - apply (adjacent_all Value.isNumber).
    apply forallb_forall. intros v Hv. apply isInteger_isNumber.
    rewrite forallb_forall in Hint. apply Hint. exact Hv.
Qed.

(** C9.  A one-element list is returned as it is, whatever the element: the
    non-integer 1.5 is not shifted, and [undefined] does not make the call
    throw.  In a longer list a non-number in front of numbers is coerced and
    shifted without an error. *)
Theorem convertUserInput_misses_single_element :
  Value.isInteger (Value.Num (Number.Finite (3 # 2))) = false
  /\ Transform.convertUserInput Gfp.defaultFixParams
       [Value.Num (Number.Finite (3 # 2))]
     = JS.Return [Value.Num (Number.Finite (3 # 2))]
  /\ Transform.convertUserInput Gfp.defaultFixParams [Value.Undefined]
     = JS.Return [Value.Undefined]
  /\ Transform.convertUserInput Gfp.defaultFixParams
       [Value.Boolean true; Value.Num (Number.Finite (3 # 2));
        Value.Num (Number.ofZ 2)]
     = JS.Return [Value.Num (Number.ofZ 1048576);
                  Value.Num (Number.ofZ 1572864);
                  Value.Num (Number.ofZ 2097152)].
Proof. repeat split; reflexivity. Qed.

(** With two or more elements, one of them not an integer, every element is
    replaced by its shifted encoding (here under f = 10, k = 41). *)
Example convertUserInput_shifts :
  Transform.convertUserInput (Gfp.initFixedPointParams 10 41)
    [Value.Num (Number.Finite (493665 # 1000)); Value.Num (Number.ofZ 2)]
  = JS.Return [Value.Num (Number.ofZ 505513); Value.Num (Number.ofZ 2048)].
Proof. reflexivity. Qed.

(** ** type_mapping/binaryToShare.js *)

(** C10.  On the empty array [binaryToShare] gets past the Array and
    Uint8Array checks and stops in the same-length reduction, which throws
    the runtime's TypeError for reducing an empty array with no initial
    value. *)
Theorem binaryToShare_empty_array :
  BinaryToShare.binaryToShare (BinaryToShare.Array [])
  = JS.Throw (JS.TypeError JS.ReduceOfEmptyArray).
Proof. reflexivity. Qed.

(** ** type_mapping/binaryToArray.js *)

Lemma forallb_map_comp {A B} (f : A -> B) (p : B -> bool) (l : list A) :
  forallb p (map f l) = forallb (fun x => p (f x)) l.
Proof. induction l as [|x t IH]; simpl; [reflexivity | now rewrite IH]. Qed.

Lemma concat_mapi_nil {A B} (f : A -> nat -> list B) (l : list A) : forall i,
  (forall x j, In x l -> f x j = []) ->
  List.concat (JS.mapi_from f i l) = [].
Proof.
  induction l as [|x t IH]; intros i Hf; [reflexivity|].
  cbn [JS.mapi_from List.concat].
  rewrite (Hf x i (or_introl eq_refl)), IH; [reflexivity|].
  intros y j Hy. apply Hf. right. exact Hy.
Qed.

Lemma checkBuffer_nil (size : nat) (l : list (list byte)) :
  (0 < size)%nat ->
  (forall b, In b l -> Nat.modulo (List.length b) size = 0%nat) ->
  BinaryToArray.checkBuffer (Z.of_nat size) l = [].
Proof.
  intros Hsize Hl. unfold BinaryToArray.checkBuffer, JS.mapi.
  apply concat_mapi_nil. intros b j Hb.
  rewrite Z.rem_mod_nonneg by lia.
  rewrite <- Nat2Z.inj_mod, (Hl b Hb). reflexivity.
Qed.

(** With a single party nothing is compared: the decoded buffer is the
    result. *)
Lemma binaryToArray_single {A} (same : A -> A -> bool) (size : nat) extract
      (buffer : list byte) :
  (0 < size)%nat -> Nat.modulo (List.length buffer) size = 0%nat ->
  BinaryToArray.binaryToArray same [buffer] (Z.of_nat size) extract
  = extract buffer.
Proof.
  intros Hsize Hlen. unfold BinaryToArray.binaryToArray.
  cbn [List.length Nat.eqb].
  rewrite checkBuffer_nil;
    [|exact Hsize | intros b [<- | []]; exact Hlen].
  cbn [List.length Nat.eqb negb JS.mapM].
  destruct (extract buffer) as [decoded | e]; reflexivity.
Qed.

Section AllSameFacts.
Context {A : Type}.
Variable same : A -> A -> bool.

Lemma sameEntries_sameSequence a : forall b,
  List.length a = List.length b ->
  BinaryToArray.sameEntries same a b = Spec.sameSequence same a b.
Proof.
  induction a as [|x a IH]; intros [|y b] Hlen; simpl in *;
    try discriminate; [reflexivity|].
  destruct (same x y); simpl; [apply IH; lia | reflexivity].
Qed.

Lemma sameSequence_length a : forall b,
  Spec.sameSequence same a b = true -> List.length a = List.length b.
Proof.
  induction a as [|x a IH]; intros [|y b] H; simpl in *; try discriminate.
  - reflexivity.
  - apply andb_true_iff in H as [_ H]. now rewrite (IH b H).
Qed.

Lemma allSameStep_spec a b i :
  BinaryToArray.allSameStep same (Some a) b i
  = if negb (Nat.eqb (List.length a) 0) && Spec.sameSequence same a b
    then Some a else None.
Proof.
  unfold BinaryToArray.allSameStep.
  destruct (Nat.eqb_spec (List.length a) 0) as [Ha | Ha]; [reflexivity|].
  cbn [negb andb].
  destruct (Nat.eqb_spec (List.length a) (List.length b)) as [Hab | Hab].
  - destruct (Nat.eqb_spec (List.length b) 0) as [Hb | Hb]; [lia|].
    cbn [negb andb]. now rewrite sameEntries_sameSequence.
  - rewrite andb_false_r.
    destruct (Spec.sameSequence same a b) eqn:Hs; [|reflexivity].
    apply sameSequence_length in Hs. contradiction.
Qed.

Lemma allSame_reduce t : forall a i,
  JS.reduce_from (BinaryToArray.allSameStep same) i (Some a) t
  = if forallb (fun b => negb (Nat.eqb (List.length a) 0)
                         && Spec.sameSequence same a b) t
    then Some a else None.
Proof.
  induction t as [|b t IH]; intros a i; [reflexivity|].
  cbn [JS.reduce_from forallb]. rewrite allSameStep_spec.
  destruct (negb (Nat.eqb (List.length a) 0) && Spec.sameSequence same a b).
  - apply IH.
  - clear IH. cbn [andb]. generalize (S i).
    induction t as [|c t IH]; intros j; [reflexivity | apply IH].
Qed.

(** [binaryToArray] once the buffers pass the length check and decode. *)
Lemma binaryToArray_agreed (size : nat) extract (decode : list byte -> list A)
      first rest :
  (0 < size)%nat ->
  (forall b, In b (first :: rest) ->
             Nat.modulo (List.length b) size = 0%nat) ->
  (forall b, In b (first :: rest) -> extract b = JS.Return (decode b)) ->
  BinaryToArray.binaryToArray same (first :: rest) (Z.of_nat size) extract
  = Spec.agreed same (decode first) (map decode rest).
Proof.
  intros Hsize Hlen Hdec. unfold BinaryToArray.binaryToArray.
  cbn [List.length Nat.eqb].
  rewrite (checkBuffer_nil size) by assumption.
  cbn [List.length Nat.eqb negb].
  rewrite (mapM_Return extract decode) by exact Hdec.
  cbn [JS.bind map]. unfold BinaryToArray.allSame, Spec.agreed.
  cbn [List.length Nat.eqb JS.reduce1 JS.bind].
  rewrite allSame_reduce.
  destruct (forallb _ (map decode rest)); reflexivity.
Qed.
End AllSameFacts.


Lemma sameSequence_gfps a b :
  Spec.sameSequence Gfp.equals a b = true <-> a = b.
Proof.
  revert b. induction a as [|x a IH]; intros [|y b]; simpl;
    try (split; [discriminate | congruence]).
  - split; reflexivity.
  - unfold Gfp.equals at 1. rewrite andb_true_iff, Z.eqb_eq, IH.
    destruct x as [x], y as [y]. simpl. split.
    + intros [-> ->]. reflexivity.
    + intros H. injection H as -> ->. auto.
Qed.


(** C4.  Two parties that both send the empty buffer decode to the same
    (empty) sequence, the length check passes, and both
    [binaryToIntArray] and [binaryToGfpArray] still throw the
    parties-disagree error; a single empty buffer is accepted. *)
Theorem binaryToArray_rejects_equal_empty_results :
  BinaryToArray.checkBuffer 4 [[]; []] = []
  /\ BinaryToArray.extractInts [] = JS.Return []
  /\ BinaryToArray.binaryToIntArray [[]; []]
     = JS.Throw (JS.Error JS.NotAllSame)
  /\ BinaryToArray.extractGfps [] = JS.Return []
  /\ BinaryToArray.binaryToGfpArray [[]; []]
     = JS.Throw (JS.Error JS.NotAllSame)
  /\ BinaryToArray.binaryToIntArray [[]] = JS.Return [].
Proof. repeat split; reflexivity. Qed.

(** ** utility/binary.js and the decoding of one field element *)

Lemma padHex_byte b :
  Binary.padHex (BigInt.toString16 (Binary.byteValue b))
  = String (BigInt.hexDigit (Binary.byteValue b / 16))
      (String (BigInt.hexDigit (Binary.byteValue b mod 16)) EmptyString).
Proof. destruct b; reflexivity. Qed.

Lemma byteValue_range b : 0 <= Binary.byteValue b < 256.
Proof.
  unfold Binary.byteValue. pose proof (Byte.to_N_bounded b). lia.
Qed.

(** Reading the two characters of a byte continues the Horner loop with
    one base-256 digit. *)
Lemma parseDigits_byte b k :
  BigInt.parseDigits
    (Binary.padHex (BigInt.toString16 (Binary.byteValue b))) k
  = JS.Return (k * 256 + Binary.byteValue b).
Proof.
  rewrite padHex_byte. pose proof (byteValue_range b) as Hb.
  cbn [BigInt.parseDigits].
  rewrite digitValue_hexDigit
    by (split; [apply Z.div_pos; lia | apply Z.div_lt_upper_bound; lia]).
  rewrite digitValue_hexDigit by (apply Z.mod_pos_bound; lia).
  f_equal. pose proof (Z.div_mod (Binary.byteValue b) 16 ltac:(lia)). lia.
Qed.

Lemma parseDigits_binaryToHex bytes : forall i acc k v,
  BigInt.parseDigits acc k = JS.Return v ->
  BigInt.parseDigits
    (JS.reduce_from
       (fun hexString b (_ : nat) =>
          (hexString ++ Binary.padHex (BigInt.toString16 (Binary.byteValue b)))%string)
       i acc bytes) k
  = JS.Return (fold_left (fun a b => a * 256 + Binary.byteValue b) bytes v).
Proof.
  induction bytes as [|b bytes IH]; intros i acc k v Hacc.
  - exact Hacc.
  - cbn [JS.reduce_from fold_left]. apply IH.
    rewrite parseDigits_app, Hacc. cbn [JS.bind]. apply parseDigits_byte.
Qed.

Lemma bigEndian_rev group :
  fold_left (fun a b => a * 256 + Binary.byteValue b) (rev group) 0
  = BinaryToArray.littleEndian group.
Proof.
  rewrite <- fold_left_rev_right, rev_involutive.
  induction group as [|b group IH]; [reflexivity|].
  cbn [fold_right BinaryToArray.littleEndian]. rewrite IH. lia.
Qed.

Lemma littleEndian_nonneg group : 0 <= BinaryToArray.littleEndian group.
Proof.
  induction group as [|b group IH]; cbn [BinaryToArray.littleEndian]; [lia|].
  pose proof (byteValue_range b). lia.
Qed.

(** A group of bytes whose little-endian value is at most the prime decodes
    to the Gfp holding that value. *)
Lemma gfpOfGroup_Return group :
  BinaryToArray.littleEndian group <= Gfp.GFP_PRIME ->
  BinaryToArray.gfpOfGroup group
  = JS.Return (Gfp.mk (BinaryToArray.littleEndian group)).
Proof.
  intros Hle. unfold BinaryToArray.gfpOfGroup, Gfp.fromSpdz.
  rewrite (parse16_parseDigits _ (BinaryToArray.littleEndian group)).
  - cbn [JS.bind]. apply new_mapped.
    pose proof (littleEndian_nonneg group). lia.
  - unfold Binary.binaryToHex, JS.reduce.
    rewrite (parseDigits_binaryToHex (rev group) 0%nat ""%string 0 0 eq_refl).
    f_equal. apply bigEndian_rev.
Qed.

(** A group above the prime is refused by the field type. *)
Lemma gfpOfGroup_Throw group :
  Gfp.GFP_PRIME < BinaryToArray.littleEndian group ->
  BinaryToArray.gfpOfGroup group
  = JS.Throw (JS.Error (JS.GfpExceedsField (BinaryToArray.littleEndian group))).
Proof.
  intros Hgt. unfold BinaryToArray.gfpOfGroup, Gfp.fromSpdz.
  rewrite (parse16_parseDigits _ (BinaryToArray.littleEndian group)).
  - cbn [JS.bind]. unfold Gfp.new.
    destruct (Z.ltb_spec (BinaryToArray.littleEndian group) 0);
      [reflexivity|].
    destruct (Z.gtb_spec (BinaryToArray.littleEndian group) Gfp.GFP_PRIME);
      [reflexivity | lia].
  - unfold Binary.binaryToHex, JS.reduce.
    rewrite (parseDigits_binaryToHex (rev group) 0%nat ""%string 0 0 eq_refl).
    f_equal. apply bigEndian_rev.
Qed.

(** The groups of a buffer holding [m] whole groups. *)
Lemma groupsFuel_spec {A} (size : nat) (m : nat) :
  (0 < size)%nat ->
  forall (l : list A) fuel,
    List.length l = (size * m)%nat -> (m <= fuel)%nat ->
    BinaryToArray.groupsFuel fuel size l
    = map (fun j => firstn size (skipn (size * j) l)) (seq 0 m).
Proof.
  intros Hsize. induction m as [|m IH]; intros l fuel Hlen Hfuel.
  - rewrite Nat.mul_0_r in Hlen. apply length_zero_iff_nil in Hlen. subst l.
    destruct fuel; reflexivity.
  - destruct fuel as [|fuel]; [lia|].
    destruct l as [|x l']; [simpl in Hlen; lia|].
    set (l := x :: l') in *.
    change (BinaryToArray.groupsFuel (S fuel) size l)
      with (firstn size l
              :: BinaryToArray.groupsFuel fuel size (skipn size l)).
    rewrite (IH (skipn size l) fuel) by (rewrite ?length_skipn; lia).
    cbn [seq map]. rewrite Nat.mul_0_r. cbn [skipn]. f_equal.
    rewrite <- seq_shift, map_map.
    apply map_ext. intros j. rewrite skipn_skipn. do 2 f_equal. lia.
Qed.

Lemma groups_spec {A} (size m : nat) (l : list A) :
  (0 < size)%nat -> List.length l = (size * m)%nat ->
  BinaryToArray.groups size l
  = map (fun j => firstn size (skipn (size * j) l)) (seq 0 m).
Proof.
  intros Hsize Hlen. unfold BinaryToArray.groups.
  apply groupsFuel_spec; [exact Hsize | exact Hlen | nia].
Qed.

(** ** type_mapping/binaryToShare.js *)

Lemma TRIPLE_BYTES_eq : BinaryToShare.TRIPLE_BYTES = 48%nat.
Proof. reflexivity. Qed.

(** The object a decoded triple of stored values makes. *)
Lemma newTriple_Return (s : list byte) :
  List.length s = 48%nat ->
  BinaryToArray.littleEndian (firstn 16 s) <= Gfp.GFP_PRIME ->
  BinaryToArray.littleEndian (firstn 16 (skipn 16 s)) <= Gfp.GFP_PRIME ->
  BinaryToArray.littleEndian (firstn 16 (skipn 32 s)) <= Gfp.GFP_PRIME ->
  BinaryToShare.newTriple s
  = JS.Return
      (BinaryToShare.mkTriple
         (Some (Gfp.mk (BinaryToArray.littleEndian (firstn 16 s))))
         (Some (Gfp.mk (BinaryToArray.littleEndian (firstn 16 (skipn 16 s)))))
         (Some (Gfp.mk (BinaryToArray.littleEndian (firstn 16 (skipn 32 s)))))).
Proof.
  intros Hlen Ha Hb Hc. unfold BinaryToShare.newTriple.
  unfold BinaryToArray.binaryToGfpArray.
  change (BinaryToArray.binaryToArray Gfp.equals [s] 16)
    with (BinaryToArray.binaryToArray Gfp.equals [s] (Z.of_nat 16)).
  rewrite (binaryToArray_single Gfp.equals 16 BinaryToArray.extractGfps s)
    by (lia || (rewrite Hlen; reflexivity)).
  unfold BinaryToArray.extractGfps.
  change (Z.to_nat Gfp.integerLengthBytes) with 16%nat.
  rewrite (groups_spec 16 3 s) by lia.
  cbn [seq map JS.mapM]. change (16 * 0)%nat with 0%nat.
  change (16 * 1)%nat with 16%nat. change (16 * 2)%nat with 32%nat.
  change (skipn 0 s) with s.
  rewrite (gfpOfGroup_Return _ Ha), (gfpOfGroup_Return _ Hb),
    (gfpOfGroup_Return _ Hc).
  reflexivity.
Qed.

Lemma zero_Return :
  BinaryToShare.zero
  = JS.Return (BinaryToShare.mkTriple (Some (Gfp.mk 0)) (Some (Gfp.mk 0))
                                      (Some (Gfp.mk 0))).
Proof. reflexivity. Qed.

(** The three fields of triple [i], read off the 48-byte slice. *)
Lemma slice_field (buffer : list byte) (i k : nat) :
  (k <= 2)%nat ->
  firstn 16 (skipn (16 * k)
               (JS.slice buffer (i * 48) ((i + 1) * 48)))
  = JS.slice buffer (48 * i + 16 * k) (48 * i + 16 * k + 16).
Proof.
  intros Hk. unfold JS.slice.
  replace ((i + 1) * 48 - i * 48)%nat with 48%nat by lia.
  replace (48 * i + 16 * k + 16 - (48 * i + 16 * k))%nat with 16%nat by lia.
  rewrite skipn_firstn_comm, firstn_firstn, skipn_skipn.
  replace (Nat.min 16 (48 - 16 * k)) with 16%nat by lia.
  do 2 f_equal. lia.
Qed.

Lemma slice_length (buffer : list byte) (i : nat) :
  ((i + 1) * 48 <= List.length buffer)%nat ->
  List.length (JS.slice buffer (i * 48) ((i + 1) * 48)) = 48%nat.
Proof.
  intros Hlen. unfold JS.slice. rewrite length_firstn, length_skipn. lia.
Qed.

Lemma inField_fieldAt buffers buffer j :
  Spec.inField buffers = true -> In buffer buffers ->
  (j < Nat.div (List.length buffer) 16)%nat ->
  Spec.fieldAt buffer (16 * j) <= Gfp.GFP_PRIME.
Proof.
  unfold Spec.inField. rewrite forallb_forall. intros Hall Hin Hj.
  specialize (Hall buffer Hin). rewrite forallb_forall in Hall.
  apply Z.leb_le. apply Hall. apply in_seq. lia.
Qed.

Lemma fieldAt_nonneg buffer offset : 0 <= Spec.fieldAt buffer offset.
Proof. apply littleEndian_nonneg. Qed.

Lemma tripleAt_nonneg buffer i : Spec.nonnegTriple (Spec.tripleAt buffer i).
Proof. repeat split; apply fieldAt_nonneg. Qed.

(** Party [buffer]'s [i]-th slice becomes the object of its three field
    values. *)
Lemma newTriple_slice buffers buffer i :
  Spec.inField buffers = true -> In buffer buffers ->
  ((i + 1) * 48 <= List.length buffer)%nat ->
  BinaryToShare.newTriple
    (JS.slice buffer (i * BinaryToShare.TRIPLE_BYTES)
              ((i + 1) * BinaryToShare.TRIPLE_BYTES))
  = JS.Return (Spec.tripleObject (Spec.tripleAt buffer i)).
Proof.
  intros Hfield Hin Hlen. rewrite TRIPLE_BYTES_eq.
  assert (Hdiv : (3 * (i + 1) <= Nat.div (List.length buffer) 16)%nat).
  { apply Nat.div_le_lower_bound; lia. }
  assert (Hk : forall k, (k <= 2)%nat ->
             BinaryToArray.littleEndian
               (firstn 16 (skipn (16 * k)
                             (JS.slice buffer (i * 48) ((i + 1) * 48))))
             = Spec.fieldAt buffer (48 * i + 16 * k)
             /\ Spec.fieldAt buffer (48 * i + 16 * k) <= Gfp.GFP_PRIME).
  { intros k Hk. rewrite slice_field by exact Hk. split; [reflexivity|].
    replace (48 * i + 16 * k)%nat with (16 * (3 * i + k))%nat by lia.
    apply (inField_fieldAt buffers); [exact Hfield | exact Hin | lia]. }
  destruct (Hk 0%nat ltac:(lia)) as [E0 L0].
  destruct (Hk 1%nat ltac:(lia)) as [E1 L1].
  destruct (Hk 2%nat ltac:(lia)) as [E2 L2].
  change (16 * 0)%nat with 0%nat in *. change (16 * 1)%nat with 16%nat in *.
  change (16 * 2)%nat with 32%nat in *.
  change (skipn 0 ?l) with l in E0.
  rewrite Nat.add_0_r in E0, L0.
  rewrite newTriple_Return.
  - rewrite E0, E1, E2. reflexivity.
  - apply slice_length. exact Hlen.
  - rewrite E0. exact L0.
  - rewrite E1. exact L1.
  - rewrite E2. exact L2.
Qed.

Lemma add_tripleObject s t :
  Spec.nonnegTriple s -> Spec.nonnegTriple t ->
  BinaryToShare.add (Spec.tripleObject s) (Spec.tripleObject t)
  = JS.Return (Spec.tripleObject (Spec.addTriples s t)).
Proof.
  destruct s as [[a b] c], t as [[x y] z].
  intros (Ha & Hb & Hc) (Hx & Hy & Hz).
  unfold BinaryToShare.add, Spec.tripleObject, Spec.addTriples.
  cbn [BinaryToShare.a BinaryToShare.b BinaryToShare.c
       BinaryToShare.addField].
  rewrite !add_Return by assumption. reflexivity.
Qed.

Lemma addTriples_nonneg s t : Spec.nonnegTriple (Spec.addTriples s t).
Proof.
  destruct s as [[a b] c], t as [[x y] z]. unfold Spec.addTriples.
  repeat split; apply Z.mod_pos_bound; exact GFP_PRIME_pos.
Qed.

(** The fold of [add] over the parties' objects computes the
    component-wise sums. *)
Lemma reduce_add ts : forall i s,
  Spec.nonnegTriple s -> Forall Spec.nonnegTriple ts ->
  JS.reduce_from
    (fun (sumTriple : JS.result BinaryToShare.Triple) triple (_ : nat) =>
       JS.bind sumTriple (fun s => BinaryToShare.add s triple))
    i (JS.Return (Spec.tripleObject s)) (map Spec.tripleObject ts)
  = JS.Return (Spec.tripleObject (fold_left Spec.addTriples ts s)).
Proof.
  induction ts as [|t ts IH]; intros i s Hs Hts; [reflexivity|].
  inversion Hts as [|? ? Ht Hts']; subst.
  cbn [map JS.reduce_from fold_left JS.bind].
  rewrite add_tripleObject by assumption.
  apply IH; [apply addTriples_nonneg | exact Hts'].
Qed.

Lemma fold_addTriples_nonneg ts : forall s,
  Spec.nonnegTriple s -> Spec.nonnegTriple (fold_left Spec.addTriples ts s).
Proof.
  induction ts as [|t ts IH]; intros s Hs; [exact Hs|].
  cbn [fold_left]. apply IH. apply addTriples_nonneg.
Qed.

Lemma combined_nonneg buffers i : Spec.nonnegTriple (Spec.combined buffers i).
Proof. apply fold_addTriples_nonneg. simpl. lia. Qed.

Lemma checkRelation_tripleObject t :
  Spec.nonnegTriple t ->
  BinaryToShare.checkRelation (Spec.tripleObject t)
  = JS.Return (Spec.relationHolds t).
Proof.
  destruct t as [[a b] c]. intros (Ha & Hb & Hc).
  unfold BinaryToShare.checkRelation, Spec.tripleObject, Spec.relationHolds.
  cbn [BinaryToShare.a BinaryToShare.b BinaryToShare.c].
  rewrite multiply_Return by assumption. reflexivity.
Qed.

(** The combined triple of position [i] is the sum the reference
    definition computes. *)
Lemma combinedTriple_Return buffers i :
  Spec.inField buffers = true ->
  (forall buffer, In buffer buffers ->
                  ((i + 1) * 48 <= List.length buffer)%nat) ->
  BinaryToShare.combinedTriple buffers i
  = JS.Return (Spec.tripleObject (Spec.combined buffers i)).
Proof.
  intros Hfield Hlen. unfold BinaryToShare.combinedTriple.
  rewrite (mapM_Return _
             (fun buffer => Spec.tripleObject (Spec.tripleAt buffer i))).
  - cbn [JS.bind]. rewrite zero_Return. cbn [JS.bind].
    unfold JS.reduce, Spec.combined.
    rewrite <- (map_map (fun buffer => Spec.tripleAt buffer i)
                        Spec.tripleObject).
    apply (reduce_add _ 0%nat (0, 0, 0)).
    + simpl. lia.
    + apply Forall_forall. intros t Ht. apply in_map_iff in Ht.
      destruct Ht as (buffer & <- & _). apply tripleAt_nonneg.
  - intros buffer Hin.
    apply (newTriple_slice buffers); [exact Hfield | exact Hin |].
    apply Hlen. exact Hin.
Qed.

Lemma mapM_ext {A B} (f g : A -> JS.result B) (l : list A) :
  (forall x, In x l -> f x = g x) -> JS.mapM f l = JS.mapM g l.
Proof.
  induction l as [|x t IH]; intros Hfg; [reflexivity|].
  cbn [JS.mapM]. rewrite (Hfg x (or_introl eq_refl)).
  rewrite IH by (intros y Hy; apply Hfg; right; exact Hy). reflexivity.
Qed.

(** A [map] whose callback either returns or throws one fixed error returns
    all the values or throws that error. *)
Lemma mapM_check {A B} (p : A -> bool) (g : A -> B) (e : JS.exn) (l : list A) :
  JS.mapM (fun x => if p x then JS.Return (g x) else JS.Throw e) l
  = if forallb p l then JS.Return (map g l) else JS.Throw e.
Proof.
  induction l as [|x t IH]; [reflexivity|].
  cbn [JS.mapM forallb map]. destruct (p x); [|reflexivity].
  cbn [JS.bind andb]. rewrite IH. destruct (forallb p t); reflexivity.
Qed.

Lemma sameLength_reduce (first : list byte) rest : forall i,
  (forall b, In b rest -> List.length b = List.length first) ->
  JS.reduce_from
    (fun (a : option (list byte)) (b : list byte) (_ : nat) =>
       match a with
       | None => None
       | Some a => if Nat.eqb (List.length a) (List.length b)
                   then Some a else None
       end) i (Some first) rest
  = Some first.
Proof.
  induction rest as [|b rest IH]; intros i Hlen; [reflexivity|].
  cbn [JS.reduce_from]. rewrite (Hlen b (or_introl eq_refl)), Nat.eqb_refl.
  apply IH. intros b' Hb'. apply Hlen. right. exact Hb'.
Qed.

(** Buffers of one positive length that is a multiple of 48 pass the
    length validation. *)
Lemma checkBufferLength_nil first rest :
  (0 < List.length first)%nat ->
  Nat.modulo (List.length first) 48 = 0%nat ->
  (forall b, In b rest -> List.length b = List.length first) ->
  BinaryToShare.checkBufferLength (first :: rest) = JS.Return [].
Proof.
  intros Hpos Hmod Hlen. unfold BinaryToShare.checkBufferLength.
  cbn [JS.reduce1 JS.bind]. rewrite sameLength_reduce by exact Hlen.
  cbn [negb]. unfold JS.mapi. rewrite concat_mapi_nil; [reflexivity|].
  intros b j Hb. rewrite TRIPLE_BYTES_eq.
  assert (Hb' : List.length b = List.length first).
  { destruct Hb as [<- | Hb]; [reflexivity | apply Hlen; exact Hb]. }
  rewrite Hb', Hmod.
  destruct (Nat.ltb_spec 0 (List.length first)); [reflexivity | lia].
Qed.

Lemma mapM_bytesOf buffers :
  JS.mapM BinaryToShare.bytesOf (map BinaryToShare.Uint8Array buffers)
  = JS.Return buffers.
Proof.
  induction buffers as [|b t IH]; [reflexivity|].
  cbn [map JS.mapM BinaryToShare.bytesOf JS.bind]. rewrite IH. reflexivity.
Qed.

(** C1, as amended.  For every non-empty list of Uint8Array buffers whose
    lengths are all the same positive multiple of 48 and whose 16-byte groups
    are all wire values the field type accepts (at most P), [binaryToShare]
    slices each buffer into M = length/48 consecutive 48-byte triples,
    decodes each into field elements (a, b, c), sums them component by
    component across all parties, returns the M combined a-components in
    order when every combined triple satisfies a.multiply(b) = c, and throws
    the triple-verification error when some combined triple does not. *)
Theorem binaryToShare_spec first rest :
  (0 < List.length first)%nat ->
  Nat.modulo (List.length first) 48 = 0%nat ->
  (forall b, In b rest -> List.length b = List.length first) ->
  Spec.inField (first :: rest) = true ->
  BinaryToShare.binaryToShare
    (BinaryToShare.Array (map BinaryToShare.Uint8Array (first :: rest)))
  = Spec.shares (first :: rest).
Proof.
  intros Hpos Hmod Hlen Hfield.
  unfold BinaryToShare.binaryToShare.
  rewrite mapM_bytesOf. cbn [JS.bind].
  rewrite (checkBufferLength_nil first rest Hpos Hmod Hlen).
  cbn [JS.bind List.length Nat.ltb Nat.leb]. rewrite TRIPLE_BYTES_eq.
  unfold Spec.shares. cbn [hd]. unfold JS.range.
  set (M := Nat.div (List.length first) 48).
  assert (HM : List.length first = (48 * M)%nat).
  { apply Nat.Div0.div_exact. exact Hmod. }
  rewrite forallb_map_comp, map_map.
  rewrite <- (mapM_check (fun i => Spec.relationHolds
                                     (Spec.combined (first :: rest) i))
                         (fun i => Gfp.mk (fst (fst (Spec.combined
                                                     (first :: rest) i))))).
  apply mapM_ext. intros i Hi. apply in_seq in Hi.
  rewrite combinedTriple_Return.
  - cbn [JS.bind].
    rewrite checkRelation_tripleObject by apply combined_nonneg.
    cbn [JS.bind].
    destruct (Spec.combined (first :: rest) i) as [[a b] c].
    destruct (Spec.relationHolds (a, b, c)); reflexivity.
  - exact Hfield.
  - intros buffer Hin.
    assert (Hb : List.length buffer = List.length first).
    { destruct Hin as [<- | Hin]; [reflexivity | apply Hlen; exact Hin]. }
    rewrite Hb, HM. lia.
Qed.

Lemma binaryToShare_spec_witness :
  (0 < List.length (repeat "000"%byte 96))%nat
  /\ Nat.modulo (List.length (repeat "000"%byte 96)) 48 = 0%nat
  /\ Spec.inField [repeat "000"%byte 96; repeat "000"%byte 96] = true
  /\ BinaryToShare.binaryToShare
       (BinaryToShare.Array
          (map BinaryToShare.Uint8Array
               [repeat "000"%byte 96; repeat "000"%byte 96]))
     = Spec.shares [repeat "000"%byte 96; repeat "000"%byte 96].
Proof.
  split; [|split; [|split]].
  - vm_compute. lia.
  - reflexivity.
  - vm_compute. reflexivity.
  - apply (binaryToShare_spec (repeat "000"%byte 96) [repeat "000"%byte 96]).
    + vm_compute. lia.
    + reflexivity.
    + intros b [<- | []]. reflexivity.
    + vm_compute. reflexivity.
Defined.

(** C1 as stated fails: a single 48-byte buffer of 0xff bytes has a valid
    length, and [binaryToShare] neither returns shares nor throws the
    triple-verification error; decoding refuses the value 2^128 - 1. *)
Lemma binaryToShare_field_range_error :
  (0 < List.length (repeat "255"%byte 48))%nat
  /\ Nat.modulo (List.length (repeat "255"%byte 48)) 48 = 0%nat
  /\ BinaryToShare.binaryToShare
       (BinaryToShare.Array
          (map BinaryToShare.Uint8Array [repeat "255"%byte 48]))
     = JS.Throw
         (JS.Error
            (JS.GfpExceedsField 340282366920938463463374607431768211455))
  /\ BinaryToShare.binaryToShare
       (BinaryToShare.Array
          (map BinaryToShare.Uint8Array [repeat "255"%byte 48]))
     <> Spec.shares [repeat "255"%byte 48].
Proof.
  split; [|split; [|split]].
  - vm_compute. lia.
  - reflexivity.
  - vm_compute. reflexivity.
  - vm_compute. discriminate.
Qed.

(** ** crypto/index.js *)

Section SecretboxFacts.
Variable key : Type.
Variable crypto_secretbox_easy :
  list byte -> list byte -> key -> JS.result (list byte).
Variable crypto_secretbox_open_easy :
  list byte -> list byte -> key -> JS.result (list byte).

(** What is taken from libsodium: the box is the 16-byte MAC followed by a
    ciphertext as long as the message, and opening a box under the key and
    nonce that made it gives the message back. *)
Hypothesis box_length : forall m n k box,
  crypto_secretbox_easy m n k = JS.Return box ->
  List.length box = (Crypto.crypto_secretbox_MACBYTES + List.length m)%nat.
Hypothesis open_box : forall m n k box,
  crypto_secretbox_easy m n k = JS.Return box ->
  crypto_secretbox_open_easy box n k = JS.Return m.

(** [encrypt] appends the nonce to the box, [decrypt] splits the wire
    bytes 24 from the end and recovers the message under the same key. *)
Lemma decrypt_encrypt k m nonce wire :
  List.length nonce = Crypto.crypto_box_NONCEBYTES ->
  Crypto.encrypt key crypto_secretbox_easy k m nonce = JS.Return wire ->
  (exists box,
      wire = box ++ nonce
      /\ List.length box
         = (Crypto.crypto_secretbox_MACBYTES + List.length m)%nat)
  /\ Crypto.decrypt key crypto_secretbox_open_easy k wire = JS.Return m.
Proof.
  intros Hnonce Henc. unfold Crypto.encrypt in Henc.
  destruct (crypto_secretbox_easy m nonce k) as [box|e] eqn:Hbox;
    [|discriminate].
  cbn [JS.bind] in Henc. injection Henc as <-.
  pose proof (box_length _ _ _ _ Hbox) as Hlen.
  split; [exists box; split; [reflexivity | exact Hlen]|].
  unfold Crypto.decrypt, Crypto.crypto_box_NONCEBYTES,
    Crypto.crypto_secretbox_MACBYTES in *.
  rewrite length_app, Hnonce, Hlen.
  destruct (Nat.leb_spec (24 + 16) (16 + List.length m + 24)); [|lia].
  cbn [JS.assert JS.bind].
  replace (16 + List.length m + 24 - 24)%nat with (List.length box) by lia.
  unfold JS.slice. rewrite Nat.sub_0_r. cbn [skipn].
  rewrite firstn_app, Nat.sub_diag, firstn_all, app_nil_r.
  rewrite skipn_app, Nat.sub_diag, skipn_all. cbn [skipn app].
  rewrite (open_box _ _ _ _ Hbox). reflexivity.
Qed.
End SecretboxFacts.

(** ** type_mapping/binaryToArray.js on field elements *)

Lemma extractGfps_Return buffers buffer :
  Spec.inField buffers = true -> In buffer buffers ->
  Nat.modulo (List.length buffer) 16 = 0%nat ->
  BinaryToArray.extractGfps buffer = JS.Return (Spec.decodeGfps buffer).
Proof.
  intros Hfield Hin Hmod.
  unfold BinaryToArray.extractGfps, Spec.decodeGfps.
  change (Z.to_nat Gfp.integerLengthBytes) with 16%nat.
  apply mapM_Return. intros group Hgroup.
  assert (Hlen : List.length buffer
                 = (16 * Nat.div (List.length buffer) 16)%nat)
    by (apply Nat.Div0.div_exact; exact Hmod).
  rewrite (groups_spec 16 _ buffer ltac:(lia) Hlen) in Hgroup.
  apply in_map_iff in Hgroup as (j & <- & Hj). apply in_seq in Hj.
  apply gfpOfGroup_Return.
  pose proof (inField_fieldAt buffers buffer j Hfield Hin ltac:(lia)) as Hle.
  unfold Spec.fieldAt, JS.slice in Hle.
  replace (16 * j + 16 - 16 * j)%nat with 16%nat in Hle by lia.
  exact Hle.
Qed.

(** [binaryToGfpArray] on buffers of whole 16-byte groups that are all
    accepted wire values: the first party's field elements are returned when
    every other party decodes to the same sequence and that sequence is not
    empty; otherwise the parties-disagree error is thrown. *)
Lemma binaryToGfpArray_spec first rest :
  (forall b, In b (first :: rest) -> Nat.modulo (List.length b) 16 = 0%nat) ->
  Spec.inField (first :: rest) = true ->
  BinaryToArray.binaryToGfpArray (first :: rest)
  = Spec.agreed Gfp.equals (Spec.decodeGfps first)
                (map Spec.decodeGfps rest).
Proof.
  intros Hlen Hfield. unfold BinaryToArray.binaryToGfpArray.
  change (BinaryToArray.binaryToArray Gfp.equals (first :: rest) 16)
    with (BinaryToArray.binaryToArray Gfp.equals (first :: rest)
                                      (Z.of_nat 16)).
  apply (binaryToArray_agreed Gfp.equals 16 BinaryToArray.extractGfps
                              Spec.decodeGfps); [lia | exact Hlen |].
  intros b Hb.
  apply (extractGfps_Return (first :: rest)); [exact Hfield | exact Hb |].
  apply Hlen. exact Hb.
Qed.

(* ================================================================== *)
(** * Further properties of the modelled code *)

(** ** math/Gfp.js: the arithmetic of stored values *)

Lemma toMontgomery_mod v :
  Gfp.toMontgomery (v mod Gfp.GFP_PRIME) = (v * Gfp.R) mod Gfp.GFP_PRIME.
Proof.
  pose proof GFP_PRIME_pos as HP.
  pose proof (Z.mod_pos_bound v Gfp.GFP_PRIME HP) as Hv.
  assert (HR : 0 <= Gfp.R) by discriminate.
  unfold Gfp.toMontgomery. rewrite mod__nonneg by nia.
  apply Z.mul_mod_idemp_l. lia.
Qed.

Lemma fromMontgomery_mod x :
  0 <= x ->
  Gfp.fromMontgomery x = (x * Gfp.R_INVERSE) mod Gfp.GFP_PRIME.
Proof.
  intros Hx. unfold Gfp.fromMontgomery.
  destruct R_INVERSE_spec as [_ [Hri _]]. apply mod__nonneg. nia.
Qed.

Lemma R_INVERSE_R_cancel a :
  (a * Gfp.R * Gfp.R_INVERSE) mod Gfp.GFP_PRIME = a mod Gfp.GFP_PRIME.
Proof.
  pose proof GFP_PRIME_pos as HP. destruct R_INVERSE_spec as [Hinv _].
  rewrite <- Z.mul_assoc, <- Z.mul_mod_idemp_r, Hinv, Z.mul_1_r by lia.
  reflexivity.
Qed.

Lemma toMontgomery_fromMontgomery x :
  0 <= x < Gfp.GFP_PRIME ->
  Gfp.toMontgomery (Gfp.fromMontgomery x) = x.
Proof.
  intros Hx. pose proof GFP_PRIME_pos as HP.
  rewrite fromMontgomery_mod by lia. rewrite toMontgomery_mod.
  replace (x * Gfp.R_INVERSE * Gfp.R) with (x * Gfp.R * Gfp.R_INVERSE) by ring.
  rewrite R_INVERSE_R_cancel. apply Z.mod_small. exact Hx.
Qed.



(** X2.  On instances with non-negative stored values [multiply] is
    commutative and associative. *)
Theorem Gfp_multiply_commutative_associative x y z :
  0 <= Gfp.val x -> 0 <= Gfp.val y -> 0 <= Gfp.val z ->
  Gfp.multiply x y = Gfp.multiply y x
  /\ (p <- Gfp.multiply x y ;; Gfp.multiply p z)
     = (q <- Gfp.multiply y z ;; Gfp.multiply x q).
Proof.
  intros Hx Hy Hz. pose proof GFP_PRIME_pos as HP. split.
  - rewrite !multiply_Return by assumption.
    now rewrite (Z.mul_comm (Gfp.val x)).
  - rewrite (multiply_Return x y), (multiply_Return y z) by assumption.
    cbn [JS.bind].
    pose proof (Z.mod_pos_bound (Gfp.val x * Gfp.val y * Gfp.R_INVERSE) _ HP).
    pose proof (Z.mod_pos_bound (Gfp.val y * Gfp.val z * Gfp.R_INVERSE) _ HP).
    rewrite !multiply_Return by (cbn [Gfp.val]; lia). cbn [Gfp.val].
    do 2 f_equal.
    rewrite <- (Z.mul_assoc (_ mod _)), Z.mul_mod_idemp_l by lia.
    rewrite (Z.mul_comm (Gfp.val x) (_ mod _)).
    rewrite <- (Z.mul_assoc (_ mod _)), Z.mul_mod_idemp_l by lia.
    f_equal. ring.
Qed.

Lemma Gfp_multiply_commutative_associative_witness :
  (0 <= Gfp.val (Gfp.mk 5))
  /\ Gfp.multiply (Gfp.mk 5) (Gfp.mk (Gfp.GFP_PRIME - 1))
     = Gfp.multiply (Gfp.mk (Gfp.GFP_PRIME - 1)) (Gfp.mk 5).
Proof.
  split; [simpl; lia|].
  apply (Gfp_multiply_commutative_associative
           (Gfp.mk 5) (Gfp.mk (Gfp.GFP_PRIME - 1)) (Gfp.mk 7));
    vm_compute; discriminate.
Defined.

(** X3.  On instances with non-negative stored values [multiply]
    distributes over [add]. *)
Theorem Gfp_multiply_distributes x y z :
  0 <= Gfp.val x -> 0 <= Gfp.val y -> 0 <= Gfp.val z ->
  (s <- Gfp.add y z ;; Gfp.multiply x s)
  = (p <- Gfp.multiply x y ;; q <- Gfp.multiply x z ;; Gfp.add p q).
Proof.
  intros Hx Hy Hz. pose proof GFP_PRIME_pos as HP.
  rewrite (add_Return y z), (multiply_Return x y), (multiply_Return x z)
    by assumption.
  cbn [JS.bind].
  pose proof (Z.mod_pos_bound (Gfp.val y + Gfp.val z) _ HP).
  pose proof (Z.mod_pos_bound (Gfp.val x * Gfp.val y * Gfp.R_INVERSE) _ HP).
  pose proof (Z.mod_pos_bound (Gfp.val x * Gfp.val z * Gfp.R_INVERSE) _ HP).
  rewrite multiply_Return, add_Return by (cbn [Gfp.val]; lia).
  cbn [Gfp.val]. do 2 f_equal.
  rewrite <- Z.add_mod by lia.
  rewrite (Z.mul_comm (Gfp.val x) (_ mod _)).
  rewrite <- (Z.mul_assoc (_ mod _)), Z.mul_mod_idemp_l by lia.
  f_equal. ring.
Qed.

Lemma Gfp_multiply_distributes_witness :
  (0 <= Gfp.val (Gfp.mk 5))
  /\ (s <- Gfp.add (Gfp.mk (Gfp.GFP_PRIME - 1)) (Gfp.mk 7) ;;
      Gfp.multiply (Gfp.mk 5) s)
     = (p <- Gfp.multiply (Gfp.mk 5) (Gfp.mk (Gfp.GFP_PRIME - 1)) ;;
        q <- Gfp.multiply (Gfp.mk 5) (Gfp.mk 7) ;; Gfp.add p q).
Proof.
  split; [simpl; lia|].
  apply (Gfp_multiply_distributes
           (Gfp.mk 5) (Gfp.mk (Gfp.GFP_PRIME - 1)) (Gfp.mk 7));
    vm_compute; discriminate.
Defined.

Lemma fromUserInput_Return v :
  Gfp.MIN_NEGATIVE <= v < Gfp.GFP_NEGATIVE_BOUNDARY ->
  Gfp.fromUserInput v
  = JS.Return (Gfp.mk ((v * Gfp.R) mod Gfp.GFP_PRIME)).
Proof.
  intros Hv. unfold Gfp.fromUserInput.
  rewrite (new_unmapped v Hv), toMontgomery_mod. reflexivity.
Qed.

Lemma toBigInteger_residue v :
  Gfp.toBigInteger (Gfp.mk ((v * Gfp.R) mod Gfp.GFP_PRIME))
  = Gfp.fromGfpMapping (v mod Gfp.GFP_PRIME).
Proof.
  pose proof GFP_PRIME_pos as HP.
  unfold Gfp.toBigInteger. cbn [Gfp.val].
  rewrite <- toMontgomery_mod, fromMontgomery_toMontgomery
    by (apply Z.mod_pos_bound; lia).
  reflexivity.
Qed.

(** X4.  Adding the instances of two accepted user integers gives the
    instance whose integer is their sum wrapped into the field's signed
    range; when the sum is itself an accepted integer it is the instance
    [fromUserInput] builds for the sum. *)
Theorem fromUserInput_add a b :
  Gfp.MIN_NEGATIVE <= a < Gfp.GFP_NEGATIVE_BOUNDARY ->
  Gfp.MIN_NEGATIVE <= b < Gfp.GFP_NEGATIVE_BOUNDARY ->
  exists g,
    (x <- Gfp.fromUserInput a ;; y <- Gfp.fromUserInput b ;; Gfp.add x y)
    = JS.Return g
    /\ Gfp.toBigInteger g = Gfp.fromGfpMapping ((a + b) mod Gfp.GFP_PRIME)
    /\ (Gfp.MIN_NEGATIVE <= a + b < Gfp.GFP_NEGATIVE_BOUNDARY ->
        Gfp.fromUserInput (a + b) = JS.Return g).
Proof.
  intros Ha Hb. pose proof GFP_PRIME_pos as HP.
  exists (Gfp.mk (((a + b) * Gfp.R) mod Gfp.GFP_PRIME)).
  split; [|split].
  - rewrite (fromUserInput_Return a Ha), (fromUserInput_Return b Hb).
    cbn [JS.bind].
    pose proof (Z.mod_pos_bound (a * Gfp.R) _ HP).
    pose proof (Z.mod_pos_bound (b * Gfp.R) _ HP).
    rewrite add_Return by (cbn [Gfp.val]; lia). cbn [Gfp.val].
    rewrite <- Z.add_mod by lia. do 3 f_equal. ring.
  - apply toBigInteger_residue.
  - intros Hab. apply fromUserInput_Return. exact Hab.
Qed.

Lemma fromUserInput_add_witness :
  (Gfp.MIN_NEGATIVE <= 12 < Gfp.GFP_NEGATIVE_BOUNDARY)
  /\ (Gfp.MIN_NEGATIVE <= -16 < Gfp.GFP_NEGATIVE_BOUNDARY)
  /\ exists g,
      (x <- Gfp.fromUserInput 12 ;; y <- Gfp.fromUserInput (-16) ;;
       Gfp.add x y) = JS.Return g
      /\ Gfp.toBigInteger g
         = Gfp.fromGfpMapping ((12 + -16) mod Gfp.GFP_PRIME)
      /\ (Gfp.MIN_NEGATIVE <= 12 + -16 < Gfp.GFP_NEGATIVE_BOUNDARY ->
          Gfp.fromUserInput (12 + -16) = JS.Return g).
Proof.
  split; [vm_compute; split; [discriminate | reflexivity]|].
  split; [vm_compute; split; [discriminate | reflexivity]|].
  apply (fromUserInput_add 12 (-16));
    vm_compute; split; [discriminate | reflexivity | discriminate | reflexivity].
Defined.

(** X5.  Multiplying the instances of two accepted user integers gives the
    instance whose integer is their product wrapped into the field's signed
    range; when the product is itself an accepted integer it is the instance
    [fromUserInput] builds for the product. *)
Theorem fromUserInput_multiply a b :
  Gfp.MIN_NEGATIVE <= a < Gfp.GFP_NEGATIVE_BOUNDARY ->
  Gfp.MIN_NEGATIVE <= b < Gfp.GFP_NEGATIVE_BOUNDARY ->
  exists g,
    (x <- Gfp.fromUserInput a ;; y <- Gfp.fromUserInput b ;;
     Gfp.multiply x y) = JS.Return g
    /\ Gfp.toBigInteger g = Gfp.fromGfpMapping ((a * b) mod Gfp.GFP_PRIME)
    /\ (Gfp.MIN_NEGATIVE <= a * b < Gfp.GFP_NEGATIVE_BOUNDARY ->
        Gfp.fromUserInput (a * b) = JS.Return g).
Proof.
  intros Ha Hb. pose proof GFP_PRIME_pos as HP.
  exists (Gfp.mk (((a * b) * Gfp.R) mod Gfp.GFP_PRIME)).
  split; [|split].
  - rewrite (fromUserInput_Return a Ha), (fromUserInput_Return b Hb).
    cbn [JS.bind].
    pose proof (Z.mod_pos_bound (a * Gfp.R) _ HP).
    pose proof (Z.mod_pos_bound (b * Gfp.R) _ HP).
    rewrite multiply_Return by (cbn [Gfp.val]; lia). cbn [Gfp.val].
    do 2 f_equal.
    rewrite <- (Z.mul_assoc (_ mod _)), Z.mul_mod_idemp_l by lia.
    rewrite (Z.mul_comm (a * Gfp.R)), <- (Z.mul_assoc (_ mod _)),
      Z.mul_mod_idemp_l by lia.
    replace (b * Gfp.R * (Gfp.R_INVERSE * (a * Gfp.R)))
      with (a * b * Gfp.R * Gfp.R * Gfp.R_INVERSE) by ring.
    rewrite R_INVERSE_R_cancel. reflexivity.
  - apply toBigInteger_residue.
  - intros Hab. apply fromUserInput_Return. exact Hab.
Qed.

Lemma fromUserInput_multiply_witness :
  (Gfp.MIN_NEGATIVE <= 50 < Gfp.GFP_NEGATIVE_BOUNDARY)
  /\ (Gfp.MIN_NEGATIVE <= -1000 < Gfp.GFP_NEGATIVE_BOUNDARY)
  /\ exists g,
      (x <- Gfp.fromUserInput 50 ;; y <- Gfp.fromUserInput (-1000) ;;
       Gfp.multiply x y) = JS.Return g
      /\ Gfp.toBigInteger g
         = Gfp.fromGfpMapping ((50 * -1000) mod Gfp.GFP_PRIME)
      /\ (Gfp.MIN_NEGATIVE <= 50 * -1000 < Gfp.GFP_NEGATIVE_BOUNDARY ->
          Gfp.fromUserInput (50 * -1000) = JS.Return g).
Proof.
  split; [vm_compute; split; [discriminate | reflexivity]|].
  split; [vm_compute; split; [discriminate | reflexivity]|].
  apply (fromUserInput_multiply 50 (-1000));
    vm_compute; split; [discriminate | reflexivity | discriminate | reflexivity].
Defined.

(** X6.  The wire hex string of every instance the constructor returns is
    read back by [Gfp.fromSpdz] as the same instance. *)
Theorem fromSpdz_toNativeHexString value isMapped g :
  Gfp.new value isMapped = JS.Return g ->
  Gfp.fromSpdz (Gfp.toNativeHexString g) = JS.Return g.
Proof.
  intros Hnew. apply new_val_range in Hnew.
  unfold Gfp.fromSpdz, Gfp.toNativeHexString.
  destruct (toString16_spec (Gfp.val g) ltac:(lia)) as [Hparse _].
  rewrite Hparse. cbn [JS.bind]. rewrite new_mapped by exact Hnew.
  destruct g. reflexivity.
Qed.

Lemma fromSpdz_toNativeHexString_witness :
  Gfp.new (-60) false
  = JS.Return (Gfp.mk 55236837168738497707819516538600620151)
  /\ Gfp.fromSpdz
       (Gfp.toNativeHexString (Gfp.mk 55236837168738497707819516538600620151))
     = JS.Return (Gfp.mk 55236837168738497707819516538600620151).
Proof.
  split; [reflexivity|].
  apply (fromSpdz_toNativeHexString (-60) false). reflexivity.
Defined.

(** X7.  On the residues 0 .. P-1 the exported conversions [toMontgomery]
    and [fromMontgomery] are inverse to each other. *)
Theorem Montgomery_conversions_inverse x :
  0 <= x < Gfp.GFP_PRIME ->
  Gfp.fromMontgomery (Gfp.toMontgomery x) = x
  /\ Gfp.toMontgomery (Gfp.fromMontgomery x) = x.
Proof.
  intros Hx. split.
  - apply fromMontgomery_toMontgomery. exact Hx.
  - apply toMontgomery_fromMontgomery. exact Hx.
Qed.

Lemma Montgomery_conversions_inverse_witness :
  (0 <= 1234 < Gfp.GFP_PRIME)
  /\ Gfp.fromMontgomery (Gfp.toMontgomery 1234) = 1234.
Proof.
  split; [vm_compute; split; [discriminate | reflexivity]|].
  apply (Montgomery_conversions_inverse 1234).
  vm_compute. split; [discriminate | reflexivity].
Defined.

(** ** math/numericConversions.js *)












(** ** utility/binary.js *)

Lemma binaryToHex_length_from bytes : forall i acc,
  String.length
    (JS.reduce_from
       (fun hexString b (_ : nat) =>
          (hexString ++ Binary.padHex (BigInt.toString16 (Binary.byteValue b)))%string)
       i acc bytes)
  = (String.length acc + 2 * List.length bytes)%nat.
Proof.
  induction bytes as [|b bytes IH]; intros i acc.
  - simpl. lia.
  - cbn [JS.reduce_from List.length]. rewrite IH, string_length_app.
    rewrite padHex_byte. simpl. lia.
Qed.

(** X11.  [binaryToHex] prints two characters per byte, and the string
    read as a base-16 integer is the big-endian value of the bytes. *)
Theorem binaryToHex_length_value bytes :
  String.length (Binary.binaryToHex bytes) = (2 * List.length bytes)%nat
  /\ BigInt.parse16 (Binary.binaryToHex bytes)
     = JS.Return (Spec.bigEndian bytes).
Proof.
  split.
  - unfold Binary.binaryToHex, JS.reduce. now rewrite binaryToHex_length_from.
  - apply parse16_parseDigits. unfold Binary.binaryToHex, JS.reduce.
    apply (parseDigits_binaryToHex bytes 0%nat ""%string 0 0 eq_refl).
Qed.

(** ** type_mapping/binaryToArray.js: the length check and the agreement
    rule *)

Lemma concat_mapi_filter {A B} (bad : A -> bool) (msg : nat -> A -> B)
      (l : list A) : forall i,
  List.concat
    (JS.mapi_from (fun x j => if bad x then [msg j x] else []) i l)
  = map (fun '(j, x) => msg j x)
        (filter (fun '(_, x) => bad x) (combine (seq i (List.length l)) l)).
Proof.
  induction l as [|x t IH]; intros i; [reflexivity|].
  cbn [JS.mapi_from List.concat List.length seq combine filter].
  rewrite IH. destruct (bad x); reflexivity.
Qed.

Lemma mapi_from_ext {A B} (f g : A -> nat -> B) (l : list A) : forall i,
  (forall x j, f x j = g x j) -> JS.mapi_from f i l = JS.mapi_from g i l.
Proof.
  induction l as [|x t IH]; intros i Hfg; [reflexivity|].
  cbn [JS.mapi_from]. now rewrite Hfg, IH.
Qed.

Lemma checkBuffer_offending (size : nat) (l : list (list byte)) :
  (0 < size)%nat ->
  BinaryToArray.checkBuffer (Z.of_nat size) l
  = map (fun '(j, b) => JS.WrongLength j (List.length b) (Z.of_nat size))
        (Spec.offending size l).
Proof.
  intros Hsize. unfold BinaryToArray.checkBuffer, JS.mapi, Spec.offending.
  rewrite <- (concat_mapi_filter
                (fun b => negb (Nat.eqb (Nat.modulo (List.length b) size) 0))
                (fun j b => JS.WrongLength j (List.length b) (Z.of_nat size))).
  f_equal. apply mapi_from_ext. intros b j.
  rewrite Z.rem_mod_nonneg, <- Nat2Z.inj_mod by lia.
  destruct (Nat.eqb_spec (Nat.modulo (List.length b) size) 0) as [-> | Hne].
  - reflexivity.
  - destruct (Z.eqb_spec (Z.of_nat (Nat.modulo (List.length b) size)) 0);
      [lia | reflexivity].
Qed.

(** X12.  On the empty list [binaryToArray] throws the no-data error.  On
    a non-empty list with a buffer whose length is no multiple of the
    element size it throws the length error, whose messages name exactly
    the offending buffers by index, in order, and it does not depend on the
    decoder or on the other buffers' contents. *)
Theorem binaryToArray_length_error {A} (same : A -> A -> bool) (size : nat)
        extract (buffers : list (list byte)) :
  (0 < size)%nat -> Spec.offending size buffers <> [] ->
  BinaryToArray.binaryToArray same [] (Z.of_nat size) extract
  = JS.Throw (JS.Error JS.NoDataToExtract)
  /\ BinaryToArray.binaryToArray same buffers (Z.of_nat size) extract
     = JS.Throw
         (JS.Error
            (JS.LengthCheck
               (map (fun '(j, b) =>
                       JS.WrongLength j (List.length b) (Z.of_nat size))
                    (Spec.offending size buffers)))).
Proof.
  intros Hsize Hbad. split; [reflexivity|].
  unfold BinaryToArray.binaryToArray.
  destruct buffers as [|first rest]; [contradiction Hbad; reflexivity|].
  cbn [List.length Nat.eqb]. rewrite checkBuffer_offending by exact Hsize.
  destruct (Spec.offending size (first :: rest)) as [|p ps];
    [contradiction Hbad; reflexivity|].
  reflexivity.
Qed.

Lemma binaryToArray_length_error_witness :
  (0 < 4)%nat
  /\ Spec.offending 4 [["001"%byte]; []; ["001"%byte; "002"%byte]] <> []
  /\ BinaryToArray.binaryToArray Z.eqb
       [["001"%byte]; []; ["001"%byte; "002"%byte]] (Z.of_nat 4)
       BinaryToArray.extractInts
     = JS.Throw
         (JS.Error
            (JS.LengthCheck [JS.WrongLength 0 1 4; JS.WrongLength 2 2 4])).
Proof.
  split; [lia|]. split; [vm_compute; discriminate|].
  apply (binaryToArray_length_error Z.eqb 4 BinaryToArray.extractInts
           [["001"%byte]; []; ["001"%byte; "002"%byte]]).
  - lia.
  - vm_compute. discriminate.
Defined.

Lemma agreed_Return {A} (same : A -> A -> bool) (first : list A) rest :
  (forall a b, same a b = true <-> a = b) ->
  (forall a b : list A, Spec.sameSequence same a b = true <-> a = b) ->
  (Spec.agreed same first rest = JS.Return first
   <-> rest = [] \/ (first <> [] /\ forall b, In b rest -> b = first))
  /\ (Spec.agreed same first rest = JS.Return first
      \/ Spec.agreed same first rest = JS.Throw (JS.Error JS.NotAllSame)).
Proof.
  intros _ Hseq. unfold Spec.agreed.
  destruct (forallb _ rest) eqn:Hall.
  - split; [|left; reflexivity]. split; [intros _ | reflexivity].
    destruct rest as [|b rest']; [left; reflexivity | right].
    rewrite forallb_forall in Hall. split.
    + specialize (Hall b (or_introl eq_refl)).
      apply andb_true_iff in Hall as [Hne _].
      intros ->. discriminate.
    + intros c Hc. specialize (Hall c Hc).
      apply andb_true_iff in Hall as [_ Hs]. symmetry. now apply Hseq.
  - split; [|right; reflexivity]. split; [discriminate|].
    intros [-> | [Hne Hsame]]; [discriminate|]. exfalso.
    assert (forallb
              (fun b => negb (Nat.eqb (List.length first) 0)
                        && Spec.sameSequence same first b) rest = true).
    { apply forallb_forall. intros c Hc. apply andb_true_iff. split.
      - destruct first; [contradiction Hne; reflexivity | reflexivity].
      - apply Hseq. symmetry. now apply Hsame. }
    congruence.
Qed.



(** X14.  On buffers of whole 16-byte groups that are all accepted wire
    values [binaryToGfpArray] either returns the field elements of the
    first party or throws the parties-disagree error; it returns exactly
    when there is one party, or the first party's elements are not empty
    and every other party decodes to the same elements. *)
Theorem binaryToGfpArray_agreement first rest :
  (forall b, In b (first :: rest) -> Nat.modulo (List.length b) 16 = 0%nat) ->
  Spec.inField (first :: rest) = true ->
  (BinaryToArray.binaryToGfpArray (first :: rest)
   = JS.Return (Spec.decodeGfps first)
   <-> rest = []
       \/ (Spec.decodeGfps first <> []
           /\ forall b, In b rest -> Spec.decodeGfps b = Spec.decodeGfps first))
  /\ (BinaryToArray.binaryToGfpArray (first :: rest)
      = JS.Return (Spec.decodeGfps first)
      \/ BinaryToArray.binaryToGfpArray (first :: rest)
         = JS.Throw (JS.Error JS.NotAllSame)).
Proof.
  intros Hlen Hfield. rewrite (binaryToGfpArray_spec first rest Hlen Hfield).
  assert (Heq : forall a b, Gfp.equals a b = true <-> a = b).
  { intros [a] [b]. unfold Gfp.equals. simpl. rewrite Z.eqb_eq.
    split; congruence. }
  destruct (agreed_Return Gfp.equals (Spec.decodeGfps first)
              (map Spec.decodeGfps rest) Heq sameSequence_gfps)
    as [Hiff Hor].
  split; [|exact Hor]. rewrite Hiff. split.
  - intros [Hnil | [Hne Hall]].
    + left. now destruct rest.
    + right. split; [exact Hne|]. intros b Hb. apply Hall. now apply in_map.
  - intros [-> | [Hne Hall]]; [left; reflexivity | right].
    split; [exact Hne|]. intros d Hd. apply in_map_iff in Hd.
    destruct Hd as (b & <- & Hb). now apply Hall.
Qed.

Lemma binaryToGfpArray_agreement_witness :
  Spec.inField [repeat "001"%byte 16; repeat "001"%byte 16] = true
  /\ (BinaryToArray.binaryToGfpArray
        [repeat "001"%byte 16; repeat "001"%byte 16]
      = JS.Return (Spec.decodeGfps (repeat "001"%byte 16))
      \/ BinaryToArray.binaryToGfpArray
           [repeat "001"%byte 16; repeat "001"%byte 16]
         = JS.Throw (JS.Error JS.NotAllSame)).
Proof.
  split; [vm_compute; reflexivity|].
  apply (binaryToGfpArray_agreement
           (repeat "001"%byte 16) [repeat "001"%byte 16]).
  - intros b [<- | [<- | []]]; reflexivity.
  - vm_compute. reflexivity.
Defined.






(** ** type_mapping/binaryToShare.js: validation, and what the shares are *)

Lemma sameLength_reduce_spec (first : list byte) rest : forall i,
  JS.reduce_from
    (fun (a : option (list byte)) (b : list byte) (_ : nat) =>
       match a with
       | None => None
       | Some a => if Nat.eqb (List.length a) (List.length b)
                   then Some a else None
       end) i (Some first) rest
  = if forallb (fun b => Nat.eqb (List.length first) (List.length b)) rest
    then Some first else None.
Proof.
  induction rest as [|b rest IH]; intros i; [reflexivity|].
  cbn [JS.reduce_from forallb].
  destruct (Nat.eqb (List.length first) (List.length b)); [apply IH|].
  cbn [andb]. clear IH. generalize (S i).
  induction rest as [|c rest IH]; intros j; [reflexivity | apply IH].
Qed.

Lemma checkBufferLength_spec first rest :
  BinaryToShare.checkBufferLength (first :: rest)
  = JS.Return (Spec.tripleLengthMsgs (first :: rest)).
Proof.
  unfold BinaryToShare.checkBufferLength, Spec.tripleLengthMsgs.
  cbn [JS.reduce1 JS.bind hd]. rewrite sameLength_reduce_spec.
  cbn [forallb]. rewrite Nat.eqb_refl. cbn [andb].
  unfold JS.mapi. rewrite TRIPLE_BYTES_eq.
  rewrite <- (concat_mapi_filter
                (fun b => negb (Nat.ltb 0 (List.length b)
                                && Nat.eqb (Nat.modulo (List.length b) 48) 0))
                (fun j b => JS.WrongTripleLength j (List.length b))).
  do 2 f_equal.
  - f_equal. apply mapi_from_ext. intros b j.
    destruct (Nat.ltb 0 (List.length b)
              && Nat.eqb (Nat.modulo (List.length b) 48) 0); reflexivity.
  - destruct (forallb _ rest); reflexivity.
Qed.

(** X16.  For a non-empty array of Uint8Arrays, [binaryToShare] throws the
    length error whenever some buffer is empty or no multiple of 48 bytes
    long, or the lengths differ; the error names every such buffer by
    index, in order, and ends with the same-length message when the lengths
    differ. *)
Theorem binaryToShare_length_error first rest :
  Spec.tripleLengthMsgs (first :: rest) <> [] ->
  BinaryToShare.binaryToShare
    (BinaryToShare.Array (map BinaryToShare.Uint8Array (first :: rest)))
  = JS.Throw
      (JS.Error (JS.LengthCheck (Spec.tripleLengthMsgs (first :: rest)))).
Proof.
  intros Hmsgs. unfold BinaryToShare.binaryToShare.
  rewrite mapM_bytesOf. cbn [JS.bind]. rewrite checkBufferLength_spec.
  cbn [JS.bind].
  destruct (Spec.tripleLengthMsgs (first :: rest)) as [|m ms];
    [contradiction Hmsgs; reflexivity|].
  reflexivity.
Qed.

Lemma binaryToShare_length_error_witness :
  Spec.tripleLengthMsgs [repeat "000"%byte 48; []; repeat "000"%byte 50] <> []
  /\ BinaryToShare.binaryToShare
       (BinaryToShare.Array
          (map BinaryToShare.Uint8Array
               [repeat "000"%byte 48; []; repeat "000"%byte 50]))
     = JS.Throw
         (JS.Error
            (JS.LengthCheck
               [JS.WrongTripleLength 1 0; JS.WrongTripleLength 2 50;
                JS.NotSameByteLength])).
Proof.
  split; [vm_compute; discriminate|].
  apply (binaryToShare_length_error
           (repeat "000"%byte 48) [[]; repeat "000"%byte 50]).
  vm_compute. discriminate.
Defined.

Lemma mapM_length {A B} (f : A -> JS.result B) (l : list A) : forall r,
  JS.mapM f l = JS.Return r -> List.length r = List.length l.
Proof.
  induction l as [|x t IH]; intros r H; cbn [JS.mapM] in H.
  - injection H as <-. reflexivity.
  - destruct (f x) as [y|e]; [|discriminate]. cbn [JS.bind] in H.
    destruct (JS.mapM f t) as [ys|e]; [|discriminate]. cbn [JS.bind] in H.
    injection H as <-. simpl. now rewrite (IH ys eq_refl).
Qed.

Lemma mapM_In {A B} (f : A -> JS.result B) (l : list A) : forall r y,
  JS.mapM f l = JS.Return r -> In y r -> exists x, In x l /\ f x = JS.Return y.
Proof.
  induction l as [|x t IH]; intros r y H Hy; cbn [JS.mapM] in H.
  - injection H as <-. contradiction.
  - destruct (f x) as [z|e] eqn:Hz; [|discriminate]. cbn [JS.bind] in H.
    destruct (JS.mapM f t) as [ys|e]; [|discriminate]. cbn [JS.bind] in H.
    injection H as <-. destruct Hy as [<- | Hy].
    + exists x. split; [left; reflexivity | exact Hz].
    + destruct (IH ys y eq_refl Hy) as (x' & Hx' & Hf).
      exists x'. split; [right; exact Hx' | exact Hf].
Qed.

(** Whatever [add] returns is a reduced residue. *)
Lemma add_Return_range x y g :
  Gfp.add x y = JS.Return g -> 0 <= Gfp.val g < Gfp.GFP_PRIME.
Proof.
  unfold Gfp.add. intros H. apply new_mapped_inv in H as [-> H].
  cbn [Gfp.val]. unfold BigInt.mod_ in *.
  pose proof GFP_PRIME_pos as HP.
  pose proof (Z.rem_bound_abs (Gfp.val x + Gfp.val y) Gfp.GFP_PRIME
                ltac:(lia)) as Hb.
  lia.
Qed.

Lemma reduce_add_last ts : forall i acc r,
  ts <> [] ->
  JS.reduce_from
    (fun (sumTriple : JS.result BinaryToShare.Triple) triple (_ : nat) =>
       JS.bind sumTriple (fun s => BinaryToShare.add s triple))
    i acc ts = JS.Return r ->
  exists s t, BinaryToShare.add s t = JS.Return r.
Proof.
  induction ts as [|t ts IH]; intros i acc r Hne H; [congruence|].
  cbn [JS.reduce_from] in H. destruct ts as [|t' ts'].
  - cbn [JS.reduce_from] in H. destruct acc as [s|e]; [|discriminate].
    exists s, t. exact H.
  - apply (IH _ _ r) in H; [exact H | discriminate].
Qed.

(** X17.  Whenever [binaryToShare] returns, it was given a non-empty array
    of Uint8Arrays, it returns one share per 48 bytes of the first buffer,
    and every share holds a reduced residue in 0 .. P-1. *)
Theorem binaryToShare_shares_reduced argument shares :
  BinaryToShare.binaryToShare argument = JS.Return shares ->
  exists first rest,
    argument
    = BinaryToShare.Array (map BinaryToShare.Uint8Array (first :: rest))
    /\ List.length shares = Nat.div (List.length first) 48
    /\ Forall (fun g => 0 <= Gfp.val g < Gfp.GFP_PRIME) shares.
Proof.
  intros H. unfold BinaryToShare.binaryToShare in H.
  destruct argument as [|items]; [discriminate|].
  destruct (JS.mapM BinaryToShare.bytesOf items) as [buffers|e] eqn:Hitems;
    [|discriminate].
  cbn [JS.bind] in H.
  assert (Hmap : items = map BinaryToShare.Uint8Array buffers).
  { clear H. revert buffers Hitems.
    induction items as [|it items IH]; intros buffers Hitems;
      cbn [JS.mapM] in Hitems.
    - injection Hitems as <-. reflexivity.
    - destruct it as [bytes|]; [|discriminate].
      cbn [BinaryToShare.bytesOf JS.bind] in Hitems.
      destruct (JS.mapM BinaryToShare.bytesOf items) as [bs|e];
        [|discriminate].
      cbn [JS.bind] in Hitems. injection Hitems as <-.
      simpl. now rewrite (IH bs eq_refl). }
  destruct (BinaryToShare.checkBufferLength buffers) as [msgs|e];
    [|discriminate].
  cbn [JS.bind] in H.
  destruct (Nat.ltb 0 (List.length msgs)); [discriminate|].
  destruct buffers as [|first rest]; [discriminate|].
  exists first, rest. split; [now rewrite Hmap|].
  rewrite TRIPLE_BYTES_eq in H. split.
  - apply mapM_length in H. unfold JS.range in H.
    now rewrite length_seq in H.
  - apply Forall_forall. intros g Hg.
    destruct (mapM_In _ _ _ g H Hg) as (i & _ & Hbody).
    destruct (BinaryToShare.combinedTriple (first :: rest) i)
      as [combined|e] eqn:Hcomb; [|discriminate].
    cbn [JS.bind] in Hbody.
    destruct (BinaryToShare.checkRelation combined) as [ok|e];
      [|discriminate].
    cbn [JS.bind] in Hbody. destruct ok; [|discriminate].
    cbn [negb] in Hbody.
    destruct (BinaryToShare.a combined) as [x|] eqn:Ha; [|discriminate].
    injection Hbody as <-.
    unfold BinaryToShare.combinedTriple in Hcomb.
    destruct (JS.mapM _ (first :: rest)) as [triples|e] eqn:Htriples;
      [|discriminate].
    cbn [JS.bind] in Hcomb. rewrite zero_Return in Hcomb.
    cbn [JS.bind] in Hcomb. unfold JS.reduce in Hcomb.
    apply mapM_length in Htriples.
    apply reduce_add_last in Hcomb;
      [|destruct triples; [discriminate Htriples | discriminate]].
    destruct Hcomb as (s & t & Hadd). unfold BinaryToShare.add in Hadd.
    destruct (BinaryToShare.addField (BinaryToShare.a s) (BinaryToShare.a t))
      as [a'|e] eqn:Hfield; [|discriminate].
    cbn [JS.bind] in Hadd.
    destruct (BinaryToShare.addField (BinaryToShare.b s) (BinaryToShare.b t));
      [|discriminate].
    cbn [JS.bind] in Hadd.
    destruct (BinaryToShare.addField (BinaryToShare.c s) (BinaryToShare.c t));
      [|discriminate].
    cbn [JS.bind] in Hadd. injection Hadd as <-.
    cbn [BinaryToShare.a] in Ha. subst a'.
    unfold BinaryToShare.addField in Hfield.
    destruct (BinaryToShare.a s) as [u|]; [|discriminate].
    destruct (BinaryToShare.a t) as [w|]; [|discriminate].
    destruct (Gfp.add u w) as [r|e] eqn:Hr; [|discriminate].
    cbn [JS.bind] in Hfield. injection Hfield as <-.
    exact (add_Return_range u w r Hr).
Qed.

Lemma binaryToShare_shares_reduced_witness :
  BinaryToShare.binaryToShare
    (BinaryToShare.Array [BinaryToShare.Uint8Array (repeat "000"%byte 96)])
  = JS.Return [Gfp.mk 0; Gfp.mk 0]
  /\ exists first rest,
      BinaryToShare.Array [BinaryToShare.Uint8Array (repeat "000"%byte 96)]
      = BinaryToShare.Array (map BinaryToShare.Uint8Array (first :: rest))
      /\ List.length [Gfp.mk 0; Gfp.mk 0] = Nat.div (List.length first) 48
      /\ Forall (fun g => 0 <= Gfp.val g < Gfp.GFP_PRIME)
                [Gfp.mk 0; Gfp.mk 0].
Proof.
  split; [vm_compute; reflexivity|].
  apply (binaryToShare_shares_reduced
           (BinaryToShare.Array
              [BinaryToShare.Uint8Array (repeat "000"%byte 96)])
           [Gfp.mk 0; Gfp.mk 0]).
  vm_compute. reflexivity.
Defined.

(** X18.  An array holding anything that is no Uint8Array is refused with
    the Uint8Array error before any length is looked at, whatever the other
    elements are. *)
Theorem binaryToShare_requires_Uint8Array items :
  In BinaryToShare.NotUint8Array items ->
  BinaryToShare.binaryToShare (BinaryToShare.Array items)
  = JS.Throw (JS.Error JS.RequiresUint8Array).
Proof.
  intros Hin. unfold BinaryToShare.binaryToShare.
  assert (Hthrow : JS.mapM BinaryToShare.bytesOf items
                   = JS.Throw (JS.Error JS.RequiresUint8Array)).
  { induction items as [|it items IH]; [contradiction|].
    cbn [JS.mapM]. destruct it as [bytes|]; [|reflexivity].
    cbn [BinaryToShare.bytesOf JS.bind].
    destruct Hin as [Hin | Hin]; [discriminate|].
    now rewrite (IH Hin). }
  now rewrite Hthrow.
Qed.

Lemma binaryToShare_requires_Uint8Array_witness :
  In BinaryToShare.NotUint8Array
     [BinaryToShare.Uint8Array []; BinaryToShare.NotUint8Array]
  /\ BinaryToShare.binaryToShare
       (BinaryToShare.Array
          [BinaryToShare.Uint8Array []; BinaryToShare.NotUint8Array])
     = JS.Throw (JS.Error JS.RequiresUint8Array).
Proof.
  split; [right; left; reflexivity|].
  apply (binaryToShare_requires_Uint8Array
           [BinaryToShare.Uint8Array []; BinaryToShare.NotUint8Array]).
  right. left. reflexivity.
Defined.

Lemma residue_mod g :
  0 <= Gfp.val g ->
  Spec.residue g = (Gfp.val g * Gfp.R_INVERSE) mod Gfp.GFP_PRIME.
Proof. intros Hg. unfold Spec.residue. now apply fromMontgomery_mod. Qed.

(** X19.  On a triple of reduced stored values [checkRelation] answers
    true exactly when the integers the values stand for satisfy
    a * b = c modulo P. *)
Theorem checkRelation_field_relation x y z :
  0 <= Gfp.val x -> 0 <= Gfp.val y -> 0 <= Gfp.val z < Gfp.GFP_PRIME ->
  BinaryToShare.checkRelation
    (BinaryToShare.mkTriple (Some x) (Some y) (Some z)) = JS.Return true
  <-> (Spec.residue x * Spec.residue y) mod Gfp.GFP_PRIME = Spec.residue z.
Proof.
  intros Hx Hy Hz. pose proof GFP_PRIME_pos as HP.
  unfold BinaryToShare.checkRelation.
  cbn [BinaryToShare.a BinaryToShare.b BinaryToShare.c].
  rewrite multiply_Return by assumption. cbn [JS.bind].
  unfold Gfp.equals. cbn [Gfp.val].
  rewrite !residue_mod by lia.
  rewrite <- Z.mul_mod by lia.
  set (p := Gfp.val x * Gfp.val y * Gfp.R_INVERSE).
  replace (Gfp.val x * Gfp.R_INVERSE * (Gfp.val y * Gfp.R_INVERSE))
    with (p * Gfp.R_INVERSE) by (unfold p; ring).
  split.
  - intros H. injection H as H. apply Z.eqb_eq in H. rewrite <- H.
    now rewrite Z.mul_mod_idemp_l by lia.
  - intros H. do 2 f_equal. apply Z.eqb_eq.
    assert (HR : ((p * Gfp.R_INVERSE) * Gfp.R) mod Gfp.GFP_PRIME
                 = ((Gfp.val z * Gfp.R_INVERSE) * Gfp.R) mod Gfp.GFP_PRIME).
    { rewrite <- (Z.mul_mod_idemp_l (p * Gfp.R_INVERSE)) by lia.
      rewrite H. now rewrite Z.mul_mod_idemp_l by lia. }
    replace (p * Gfp.R_INVERSE * Gfp.R) with (p * Gfp.R * Gfp.R_INVERSE)
      in HR by ring.
    replace (Gfp.val z * Gfp.R_INVERSE * Gfp.R)
      with (Gfp.val z * Gfp.R * Gfp.R_INVERSE) in HR by ring.
    rewrite !R_INVERSE_R_cancel in HR.
    rewrite HR. apply Z.mod_small. exact Hz.
Qed.

Lemma checkRelation_field_relation_witness :
  (0 <= Gfp.val (Gfp.mk 0) < Gfp.GFP_PRIME)
  /\ (BinaryToShare.checkRelation
        (BinaryToShare.mkTriple (Some (Gfp.mk 5)) (Some (Gfp.mk 0))
                                (Some (Gfp.mk 0))) = JS.Return true
      <-> (Spec.residue (Gfp.mk 5) * Spec.residue (Gfp.mk 0))
            mod Gfp.GFP_PRIME = Spec.residue (Gfp.mk 0)).
Proof.
  split; [vm_compute; split; [discriminate | reflexivity]|].
  apply (checkRelation_field_relation (Gfp.mk 5) (Gfp.mk 0) (Gfp.mk 0));
    vm_compute; try discriminate.
  split; [discriminate | reflexivity].
Defined.

(** ** socket_api/transform.js: parsing and converting what the engines
    send *)

Lemma messageTypeExists_range t :
  TransformStreams.messageTypeExists t = (0 <=? t) && (t <=? 4).
Proof.
  unfold TransformStreams.messageTypeExists.
  destruct (existsb (Z.eqb t) TransformStreams.MESSAGE_TYPE.values) eqn:He.
  - apply existsb_exists in He as (x & Hin & Hx). apply Z.eqb_eq in Hx.
    subst x. symmetry. apply andb_true_iff.
    rewrite Z.leb_le, Z.leb_le.
    unfold TransformStreams.MESSAGE_TYPE.values in Hin.
    destruct Hin as [<- | [<- | [<- | [<- | [<- | []]]]]]; split; discriminate.
  - symmetry. apply andb_false_iff.
    destruct (Z.leb_spec 0 t) as [H0 | H0]; [|left; reflexivity].
    destruct (Z.leb_spec t 4) as [H4 | H4]; [|right; reflexivity].
    exfalso.
    assert (Hin : In t TransformStreams.MESSAGE_TYPE.values).
    { assert (Hcases : t = 0 \/ t = 1 \/ t = 2 \/ t = 3 \/ t = 4) by lia.
      destruct Hcases as [-> | [-> | [-> | [-> | ->]]]]; simpl; auto 6. }
    assert (Ht : existsb (Z.eqb t) TransformStreams.MESSAGE_TYPE.values
                 = true).
    { apply existsb_exists. exists t. split; [exact Hin | apply Z.eqb_refl]. }
    congruence.
Qed.

Lemma binaryToIntArray_word (bytes : list byte) :
  (4 <= List.length bytes)%nat ->
  BinaryToArray.binaryToIntArray [JS.slice bytes 0 4]
  = JS.Return [BinaryToArray.littleEndian (firstn 4 bytes)].
Proof.
  intros Hlen. unfold BinaryToArray.binaryToIntArray, JS.slice.
  cbn [skipn Nat.sub].
  assert (Hl : List.length (firstn 4 bytes) = 4%nat)
    by (rewrite length_firstn; lia).
  change 4 with (Z.of_nat 4) at 1.
  rewrite (binaryToArray_single (fun a b : Z => a =? b) 4)
    by (lia || (rewrite Hl; reflexivity)).
  unfold BinaryToArray.extractInts.
  rewrite (groups_spec 4 1 (firstn 4 bytes)) by lia.
  cbn [seq map]. change (4 * 0)%nat with 0%nat. cbn [skipn].
  rewrite firstn_firstn. reflexivity.
Qed.

(** X20.  Without a key, [parseSpdzMessage] refuses a message shorter than
    8 bytes; otherwise it reads the first four bytes as a little-endian
    integer, refuses it unless it is one of the message types 0 .. 4, and
    returns that type with all bytes after the first four as data. *)
Theorem parseSpdzMessage_clear (key : Type) open (messageBytes : list byte) :
  TransformStreams.parseSpdzMessage key open messageBytes None
  = if Nat.ltb (List.length messageBytes) 8
    then TransformStreams.BaconError
           (TransformStreams.TooShort (List.length messageBytes))
    else
      let t := BinaryToArray.littleEndian (firstn 4 messageBytes) in
      if (0 <=? t) && (t <=? 4)
      then TransformStreams.Next
             (TransformStreams.mkOutput t (skipn 4 messageBytes))
      else TransformStreams.BaconError
             (TransformStreams.UnknownMessageType (Some t)).
Proof.
  unfold TransformStreams.parseSpdzMessage.
  destruct (Nat.ltb_spec (List.length messageBytes) 8) as [Hshort | Hlong].
  - destruct (Nat.leb_spec 8 (List.length messageBytes)); [lia|].
    reflexivity.
  - destruct (Nat.leb_spec 8 (List.length messageBytes)); [|lia].
    cbn [negb]. rewrite binaryToIntArray_word by lia.
    cbn [nth_error]. rewrite messageTypeExists_range.
    destruct ((0 <=? _) && (_ <=? 4)); reflexivity.
Qed.

(** X21.  Under a key, a message made by [encrypt] from some plaintext and
    a 24-byte nonce parses to what the plaintext parses to without a key,
    whenever the secretbox primitive opens what it boxed and its box is 16
    bytes longer than the message. *)
Theorem parseSpdzMessage_encrypted (key : Type)
        (box open : list byte -> list byte -> key -> JS.result (list byte))
        k clear nonce wire :
  (forall m n k' b, box m n k' = JS.Return b ->
                    List.length b
                    = (Crypto.crypto_secretbox_MACBYTES + List.length m)%nat) ->
  (forall m n k' b, box m n k' = JS.Return b -> open b n k' = JS.Return m) ->
  List.length nonce = Crypto.crypto_box_NONCEBYTES ->
  Crypto.encrypt key box k clear nonce = JS.Return wire ->
  TransformStreams.parseSpdzMessage key open wire (Some k)
  = TransformStreams.parseSpdzMessage key open clear None.
Proof.
  intros Hlen Hopen Hnonce Henc.
  destruct (decrypt_encrypt key box open Hlen Hopen k clear nonce wire
              Hnonce Henc) as [_ Hdec].
  unfold TransformStreams.parseSpdzMessage. rewrite Hdec. reflexivity.
Qed.

Lemma parseSpdzMessage_encrypted_witness :
  Crypto.encrypt unit
    (fun m _ _ => JS.Return (repeat "000"%byte 16 ++ m)) tt
    ["003"%byte; "000"%byte; "000"%byte; "000"%byte;
     "007"%byte; "000"%byte; "000"%byte; "000"%byte]
    (repeat "009"%byte 24)
  = JS.Return
      (repeat "000"%byte 16
       ++ ["003"%byte; "000"%byte; "000"%byte; "000"%byte;
           "007"%byte; "000"%byte; "000"%byte; "000"%byte]
       ++ repeat "009"%byte 24)
  /\ TransformStreams.parseSpdzMessage unit
       (fun b _ _ => JS.Return (skipn 16 b))
       (repeat "000"%byte 16
        ++ ["003"%byte; "000"%byte; "000"%byte; "000"%byte;
            "007"%byte; "000"%byte; "000"%byte; "000"%byte]
        ++ repeat "009"%byte 24)
       (Some tt)
     = TransformStreams.Next
         (TransformStreams.mkOutput 3
            ["007"%byte; "000"%byte; "000"%byte; "000"%byte]).
Proof.
  split; [reflexivity|].
  apply (parseSpdzMessage_encrypted unit
           (fun m _ _ => JS.Return (repeat "000"%byte 16 ++ m))
           (fun b _ _ => JS.Return (skipn 16 b)) tt
           ["003"%byte; "000"%byte; "000"%byte; "000"%byte;
            "007"%byte; "000"%byte; "000"%byte; "000"%byte]
           (repeat "009"%byte 24)).
  - intros m n k' b H. injection H as <-. reflexivity.
  - intros m n k' b H. injection H as <-. reflexivity.
  - reflexivity.
  - reflexivity.
Defined.

Lemma reduce_last_type front : forall i acc lastMsg,
  JS.reduce_from
    (fun (result : Z) output (_ : nat) => TransformStreams.messageType output)
    i acc (front ++ [lastMsg])
  = TransformStreams.messageType lastMsg.
Proof.
  induction front as [|m front IH]; intros i acc lastMsg; [reflexivity|].
  cbn [app JS.reduce_from]. apply IH.
Qed.

(** X22.  [convertOutput] looks at the message type of the last party
    only: the result is what it would be had every party sent that type.
    On the empty list it gives the not-handled error for type 0. *)
Theorem convertOutput_last_type params front lastMsg :
  TransformStreams.convertOutput params (front ++ [lastMsg])
  = TransformStreams.convertOutput params
      (map (fun m => TransformStreams.mkOutput
                       (TransformStreams.messageType lastMsg)
                       (TransformStreams.data m))
           (front ++ [lastMsg]))
  /\ TransformStreams.convertOutput params []
     = TransformStreams.BaconError
         (TransformStreams.NotHandled TransformStreams.MESSAGE_TYPE.NOTYPE).
Proof.
  split; [|reflexivity].
  unfold TransformStreams.convertOutput, JS.reduce.
  set (retyped := fun m => TransformStreams.mkOutput
                            (TransformStreams.messageType lastMsg)
                            (TransformStreams.data m)).
  assert (Hdata : map TransformStreams.data (map retyped (front ++ [lastMsg]))
                  = map TransformStreams.data (front ++ [lastMsg]))
    by (rewrite map_map; reflexivity).
  assert (Htype : forall i acc,
             JS.reduce_from
               (fun (result : Z) output (_ : nat) =>
                  TransformStreams.messageType output)
               i acc (map retyped (front ++ [lastMsg]))
             = TransformStreams.messageType lastMsg)
    by (intros i acc; rewrite map_app;
        exact (reduce_last_type (map retyped front) i acc (retyped lastMsg))).
  rewrite Hdata, Htype, reduce_last_type. reflexivity.
Qed.

(** ** utility/listComparison.js and the check of user input *)

(** X23.  For a comparator that rejects the [NaN] sentinel,
    [listComparison] answers true exactly when the comparator holds for
    every adjacent pair of the list; the truthiness of the members plays no
    part. *)
Theorem listComparison_exact {A} (truthy : A -> bool) compare (l : list A) :
  (forall b, compare ListComparison.NaN b = false) ->
  ListComparison.listComparison truthy l compare
  = JS.Return
      (Spec.adjacent (fun x y => compare (ListComparison.Member x) y) l).
Proof.
  intros HNaN. unfold ListComparison.listComparison.
  destruct l as [|x [|y t]]; [reflexivity | reflexivity |].
  cbn [List.length Nat.leb JS.reduce1 JS.bind].
  rewrite (reduce_adjacent (x :: y :: t) compare
             (fun a b => compare (ListComparison.Member a) b)
             (fun _ _ => eq_refl) HNaN (y :: t) x 1);
    [|reflexivity | discriminate].
  destruct (Spec.adjacent _ (x :: y :: t)); reflexivity.
Qed.

Lemma listComparison_exact_witness :
  ListComparison.listComparison (fun _ : Z => false) [1; 2; 2]
    (fun a b => match a with
                | ListComparison.Member x => x <? b
                | _ => false
                end)
  = JS.Return false.
Proof.
  apply (listComparison_exact (fun _ : Z => false)
           (fun a b => match a with
                       | ListComparison.Member x => x <? b
                       | _ => false
                       end)
           [1; 2; 2]).
  intros b. reflexivity.
Defined.

(** Once the accumulator is a number or the sentinel, the number check
    only sees the members that follow, and the last one decides. *)
Lemma reduce_bothNumbers list t : forall i acc,
  Value.isNumber (Transform.slotValue acc) = true ->
  t <> [] -> (i + List.length t = List.length list)%nat ->
  JS.reduce_from (ListComparison.step list Transform.bothNumbers) i acc t
  = if Value.isNumber (last t Value.Undefined)
    then ListComparison.True_ else ListComparison.NaN.
Proof.
  induction t as [|y t IH]; intros i acc Hacc Hne Hi; [congruence|].
  cbn [JS.reduce_from]. unfold ListComparison.step at 2.
  unfold Transform.bothNumbers at 2. rewrite Hacc. cbn [andb].
  destruct t as [|z t].
  - cbn [JS.reduce_from last]. simpl in Hi.
    replace (Nat.eqb i (List.length list - 1)) with true
      by (symmetry; apply Nat.eqb_eq; lia).
    destruct (Value.isNumber y); reflexivity.
  - replace (Nat.eqb i (List.length list - 1)) with false
      by (symmetry; apply Nat.eqb_neq; simpl in Hi; lia).
    change (last (y :: z :: t) Value.Undefined)
      with (last (z :: t) Value.Undefined).
    destruct (Value.isNumber y) eqn:Hy.
    + apply IH; [exact Hy | discriminate | simpl in *; lia].
    + apply IH; [reflexivity | discriminate | simpl in *; lia].
Qed.

(** From the third member on, whatever the accumulator was. *)
Lemma reduce_bothNumbers_any list y t i acc :
  t <> [] -> (i + S (List.length t) = List.length list)%nat ->
  JS.reduce_from (ListComparison.step list Transform.bothNumbers) i acc
                 (y :: t)
  = if Value.isNumber (last t Value.Undefined)
    then ListComparison.True_ else ListComparison.NaN.
Proof.
  intros Hne Hi. cbn [JS.reduce_from]. unfold ListComparison.step at 2.
  replace (Nat.eqb i (List.length list - 1)) with false
    by (symmetry; apply Nat.eqb_neq; destruct t; [congruence | simpl in Hi; lia]).
  destruct (Transform.bothNumbers acc y) eqn:Hc.
  - apply reduce_bothNumbers; [|exact Hne | lia].
    unfold Transform.bothNumbers in Hc.
    apply andb_true_iff in Hc as [_ Hy]. exact Hy.
  - apply reduce_bothNumbers; [reflexivity | exact Hne | lia].
Qed.

Lemma last_two {A} (l : list A) a b d : last (l ++ [a; b]) d = b.
Proof.
  change (l ++ [a; b]) with (l ++ [a] ++ [b]).
  rewrite app_assoc. apply last_last.
Qed.

Lemma validNumbers_last front a b :
  ListComparison.listComparison Transform.truthy (front ++ [a; b])
                                Transform.bothNumbers
  = JS.Return ((negb (Nat.eqb (List.length front) 0) || Value.isNumber a)
               && Value.isNumber b).
Proof.
  unfold ListComparison.listComparison.
  destruct (Nat.leb_spec (List.length (front ++ [a; b])) 1) as [Hl | _];
    [rewrite length_app in Hl; simpl in Hl; lia|].
  destruct front as [|x front].
  - cbn [app JS.reduce1 JS.reduce_from JS.bind List.length Nat.eqb negb orb].
    unfold ListComparison.step, Transform.bothNumbers.
    cbn [List.length Nat.sub Nat.eqb Transform.slotValue].
    destruct (Value.isNumber a), (Value.isNumber b); reflexivity.
  - cbn [app JS.reduce1 List.length Nat.eqb negb orb andb].
    destruct front as [|y front].
    + cbn [app].
      rewrite (reduce_bothNumbers_any [x; a; b] a [b] 1
                 (ListComparison.Member x)) by (discriminate || reflexivity).
      cbn [last JS.bind]. destruct (Value.isNumber b); reflexivity.
    + cbn [app].
      rewrite (reduce_bothNumbers_any (x :: y :: front ++ [a; b]) y
                 (front ++ [a; b]) 1 (ListComparison.Member x)).
      * rewrite last_two. cbn [JS.bind].
        destruct (Value.isNumber b); reflexivity.
      * destruct front; discriminate.
      * reflexivity.
Qed.

Lemma adjacent_forallb {A} (p : A -> bool) (l : list A) :
  (2 <= List.length l)%nat ->
  Spec.adjacent (fun x y => p x && p y) l = forallb p l.
Proof.
  induction l as [|x [|y t] IH]; intros Hl; simpl in Hl; try lia.
  rewrite adjacent_cons. destruct t as [|z t].
  - cbn [Spec.adjacent forallb]. destruct (p x), (p y); reflexivity.
  - rewrite IH by (simpl; lia).
    cbn [forallb]. destruct (p x), (p y); reflexivity.
Qed.

(** X24.  On a list of two members [convertUserInput] throws the
    must-be-numbers error unless both are numbers; on a longer list it
    throws it exactly when the last member is no number, whatever stands
    before.  When it does not throw, a list of integers is returned as it
    is and any other list is mapped through [jsNumberToShiftedInteger],
    member by member. *)
Theorem convertUserInput_checks_last params front a b :
  Transform.convertUserInput params (front ++ [a; b])
  = if (negb (Nat.eqb (List.length front) 0) || Value.isNumber a)
       && Value.isNumber b
    then
      if forallb Value.isInteger (front ++ [a; b])
      then JS.Return (front ++ [a; b])
      else JS.mapM
             (fun v =>
                n <- NumericConversions.jsNumberToShiftedInteger v
                       (Gfp.fix_decimal_bitlength params)
                       (Gfp.fix_whole_bitlength params) ;;
                JS.Return (Value.Num n))
             (front ++ [a; b])
    else JS.Throw (JS.Error JS.UserInputMustBeNumbers).
Proof.
  unfold Transform.convertUserInput. rewrite validNumbers_last.
  cbn [JS.bind].
  destruct ((negb (Nat.eqb (List.length front) 0) || Value.isNumber a)
            && Value.isNumber b); [|reflexivity].
  cbn [negb].
  rewrite (listComparison_adjacent Transform.truthy Transform.bothIntegers)
    by (intros v; reflexivity).
  cbn [JS.bind].
  change (fun x y => Transform.bothIntegers (ListComparison.Member x) y)
    with (fun x y => Value.isInteger x && Value.isInteger y).
  rewrite adjacent_forallb by (rewrite length_app; simpl; lia).
  reflexivity.
Qed.

(** ** crypto/index.js: the wire layout *)

(** X25.  What [encrypt] returns is the box of the primitive followed by
    the nonce, 40 bytes longer than the message, and [decrypt] under the
    same key gives the message back, whenever the secretbox primitive
    opens what it boxed and its box is 16 bytes longer than the message. *)
Theorem encrypt_decrypt_layout (key : Type)
        (box open : list byte -> list byte -> key -> JS.result (list byte))
        k m nonce wire :
  (forall m n k' b, box m n k' = JS.Return b ->
                    List.length b
                    = (Crypto.crypto_secretbox_MACBYTES + List.length m)%nat) ->
  (forall m n k' b, box m n k' = JS.Return b -> open b n k' = JS.Return m) ->
  List.length nonce = Crypto.crypto_box_NONCEBYTES ->
  Crypto.encrypt key box k m nonce = JS.Return wire ->
  List.length wire = (List.length m + 40)%nat
  /\ skipn (List.length m + 16) wire = nonce
  /\ box m nonce k = JS.Return (firstn (List.length m + 16) wire)
  /\ Crypto.decrypt key open k wire = JS.Return m.
Proof.
  intros Hlen Hopen Hnonce Henc.
  destruct (decrypt_encrypt key box open Hlen Hopen k m nonce wire
              Hnonce Henc) as [(b & -> & Hb) Hdec].
  unfold Crypto.crypto_secretbox_MACBYTES, Crypto.crypto_box_NONCEBYTES in *.
  assert (Hb' : List.length b = (List.length m + 16)%nat) by lia.
  split; [rewrite length_app; lia|].
  split; [rewrite <- Hb', skipn_app, Nat.sub_diag, skipn_all;
          reflexivity|].
  split; [|exact Hdec].
  rewrite <- Hb', firstn_app, Nat.sub_diag, firstn_all, app_nil_r.
  unfold Crypto.encrypt in Henc.
  destruct (box m nonce k) as [b'|e]; [|discriminate].
  cbn [JS.bind] in Henc. injection Henc as Heq.
  apply app_inv_tail in Heq. now subst b'.
Qed.

Lemma encrypt_decrypt_layout_witness :
  Crypto.decrypt unit (fun b _ _ => JS.Return (skipn 16 b)) tt
    (repeat "000"%byte 16 ++ ["005"%byte; "006"%byte]
     ++ repeat "009"%byte 24)
  = JS.Return ["005"%byte; "006"%byte].
Proof.
  apply (encrypt_decrypt_layout unit
           (fun m _ _ => JS.Return (repeat "000"%byte 16 ++ m))
           (fun b _ _ => JS.Return (skipn 16 b)) tt
           ["005"%byte; "006"%byte] (repeat "009"%byte 24)).
  - intros m n k' b H. injection H as <-. reflexivity.
  - intros m n k' b H. injection H as <-. reflexivity.
  - reflexivity.
  - reflexivity.
Defined.

(** ** rest_api *)

Lemma filter_all_length {A} (p : A -> bool) (l : list A) :
  Nat.eqb (List.length (filter p l)) (List.length l) = forallb p l.
Proof.
  induction l as [|x t IH]; [reflexivity|].
  cbn [filter forallb]. destruct (p x).
  - cbn [List.length Nat.eqb andb]. exact IH.
  - cbn [andb]. apply Nat.eqb_neq.
    pose proof (filter_length_le p t). simpl. lia.
Qed.

(** X26.  On an array of connection status objects [allProxiesConnected]
    answers true exactly when every status is Connected; the guard on
    [size] never fires on an array, so the empty array counts as all
    connected. *)
Theorem allProxiesConnected_every l :
  RestApi.allProxiesConnected l
  = forallb (fun c => RestApi.status c =? RestApi.ProxyStatusCodes.Connected)
            l
  /\ RestApi.allProxiesConnected [] = true.
Proof.
  split; [|reflexivity].
  unfold RestApi.allProxiesConnected. apply filter_all_length.
Qed.

(** The stored value of share plus input stands for the sum of what the
    share stands for and the input. *)
Lemma residue_masked s v :
  0 <= s ->
  Spec.residue
    (Gfp.mk ((s + (v * Gfp.R) mod Gfp.GFP_PRIME) mod Gfp.GFP_PRIME))
  = (Spec.residue (Gfp.mk s) + v) mod Gfp.GFP_PRIME.
Proof.
  intros Hs. pose proof GFP_PRIME_pos as HP.
  pose proof (Z.mod_pos_bound (v * Gfp.R) _ HP) as Hv.
  pose proof (Z.mod_pos_bound (s + (v * Gfp.R) mod Gfp.GFP_PRIME) _ HP) as Hsv.
  rewrite !residue_mod by (cbn [Gfp.val]; lia). cbn [Gfp.val].
  rewrite Z.mul_mod_idemp_l by lia.
  rewrite Z.mul_add_distr_r, Z.add_mod by lia.
  rewrite (Z.mul_mod_idemp_l (v * Gfp.R)) by lia.
  rewrite R_INVERSE_R_cancel.
  rewrite Z.add_mod_idemp_r by lia. reflexivity.
Qed.

Lemma addShares_from inputs : forall shares front,
  List.length inputs = List.length shares ->
  Forall (fun v => Gfp.MIN_NEGATIVE <= v < Gfp.GFP_NEGATIVE_BOUNDARY) inputs ->
  Forall (fun s => 0 <= Gfp.val s) shares ->
  JS.mapM
    (fun '(input, i) =>
       match nth_error (front ++ shares) i with
       | None => JS.Throw (JS.TypeError (JS.PropertyOfUndefined "add"))
       | Some share => u <- Gfp.fromUserInput input ;; Gfp.add share u
       end)
    (combine inputs (seq (List.length front) (List.length inputs)))
  = JS.Return
      (map (fun '(input, share) =>
              Gfp.mk ((Gfp.val share + (input * Gfp.R) mod Gfp.GFP_PRIME)
                      mod Gfp.GFP_PRIME))
           (combine inputs shares)).
Proof.
  induction inputs as [|v inputs IH]; intros shares front Hlen Hin Hsh;
    [reflexivity|].
  destruct shares as [|s shares]; [discriminate|].
  inversion Hin as [|? ? Hv Hin']; subst.
  inversion Hsh as [|? ? Hs Hsh']; subst.
  cbn [List.length seq combine JS.mapM map].
  rewrite nth_error_app2, Nat.sub_diag by lia. cbn [nth_error].
  rewrite (fromUserInput_Return v Hv). cbn [JS.bind].
  pose proof (Z.mod_pos_bound (v * Gfp.R) _ GFP_PRIME_pos).
  rewrite add_Return by (cbn [Gfp.val]; lia). cbn [Gfp.val JS.bind].
  specialize (IH shares (front ++ [s])).
  rewrite length_app, Nat.add_1_r, <- app_assoc in IH. cbn [app] in IH.
  rewrite IH by (simpl in Hlen; auto; lia). reflexivity.
Qed.

Lemma addShares_Return inputList shareList :
  List.length inputList = List.length shareList ->
  Forall (fun v => Gfp.MIN_NEGATIVE <= v < Gfp.GFP_NEGATIVE_BOUNDARY)
         inputList ->
  Forall (fun s => 0 <= Gfp.val s) shareList ->
  RestApi.addShares inputList shareList
  = JS.Return
      (map (fun '(input, share) =>
              Gfp.mk ((Gfp.val share + (input * Gfp.R) mod Gfp.GFP_PRIME)
                      mod Gfp.GFP_PRIME))
           (combine inputList shareList)).
Proof.
  intros Hlen Hin Hsh. unfold RestApi.addShares.
  exact (addShares_from inputList shareList [] Hlen Hin Hsh).
Qed.

(** X27.  Given as many shares as inputs, every input an accepted user
    integer, [sendInputsWithShares] computes one value per input, each a
    reduced residue, and the integer it stands for is the integer of the
    share at the same index plus the input, modulo P. *)
Theorem addShares_masks inputList shareList :
  List.length inputList = List.length shareList ->
  Forall (fun v => Gfp.MIN_NEGATIVE <= v < Gfp.GFP_NEGATIVE_BOUNDARY)
         inputList ->
  Forall (fun s => 0 <= Gfp.val s) shareList ->
  exists sent,
    RestApi.addShares inputList shareList = JS.Return sent
    /\ List.length sent = List.length inputList
    /\ Forall (fun g => 0 <= Gfp.val g < Gfp.GFP_PRIME) sent
    /\ map Spec.residue sent
       = map (fun '(input, share) =>
                (Spec.residue share + input) mod Gfp.GFP_PRIME)
             (combine inputList shareList).
Proof.
  intros Hlen Hin Hsh. eexists. split; [|split; [|split]].
  - apply addShares_Return; assumption.
  - rewrite length_map, length_combine. lia.
  - apply Forall_forall. intros g Hg. apply in_map_iff in Hg.
    destruct Hg as ([v s] & <- & _). cbn [Gfp.val].
    apply Z.mod_pos_bound. exact GFP_PRIME_pos.
  - rewrite map_map. apply map_ext_in. intros [v s] Hvs.
    apply in_combine_r in Hvs. rewrite Forall_forall in Hsh.
    rewrite (residue_masked (Gfp.val s) v (Hsh s Hvs)).
    destruct s. reflexivity.
Qed.

Lemma addShares_masks_witness :
  exists sent,
    RestApi.addShares [5; -3] [Gfp.mk 7; Gfp.mk 0] = JS.Return sent
    /\ List.length sent = 2%nat
    /\ Forall (fun g => 0 <= Gfp.val g < Gfp.GFP_PRIME) sent
    /\ map Spec.residue sent
       = map (fun '(input, share) =>
                (Spec.residue share + input) mod Gfp.GFP_PRIME)
             (combine [5; -3] [Gfp.mk 7; Gfp.mk 0]).
Proof.
  apply (addShares_masks [5; -3] [Gfp.mk 7; Gfp.mk 0]).
  - reflexivity.
  - repeat constructor; vm_compute; discriminate.
  - repeat constructor; vm_compute; discriminate.
Defined.

(** ** socket_api/transform.js: sending inputs *)

Lemma mapM_fmap {A B C} (f : A -> JS.result B) (g : B -> C) (l : list A) :
  JS.mapM (fun x => y <- f x ;; JS.Return (g y)) l
  = (r <- JS.mapM f l ;; JS.Return (map g r)).
Proof.
  induction l as [|x t IH]; [reflexivity|].
  cbn [JS.mapM]. rewrite IH.
  destruct (f x) as [y|e]; [|reflexivity]. cbn [JS.bind].
  destruct (JS.mapM f t) as [r|e]; reflexivity.
Qed.

Lemma fromSpdz_hex g :
  0 <= Gfp.val g <= Gfp.GFP_PRIME ->
  Gfp.fromSpdz (Gfp.toNativeHexString g) = JS.Return g.
Proof.
  intros Hg. unfold Gfp.fromSpdz, Gfp.toNativeHexString.
  destruct (toString16_spec (Gfp.val g) ltac:(lia)) as [Hparse _].
  rewrite Hparse. cbn [JS.bind]. rewrite new_mapped by exact Hg.
  destruct g. reflexivity.
Qed.

Lemma shareInputs_addShares inputList shareList :
  TransformStreams.shareInputs inputList shareList
  = if negb (Nat.eqb (List.length inputList) (List.length shareList))
    then JS.Return
           (TransformStreams.BaconError
              (TransformStreams.CountMismatch (List.length inputList)
                                              (List.length shareList)))
    else sent <- RestApi.addShares inputList shareList ;;
         JS.Return
           (TransformStreams.Next (map Gfp.toNativeHexString sent)).
Proof.
  unfold TransformStreams.shareInputs, RestApi.addShares.
  destruct (negb _); [reflexivity|].
  set (addShare := fun '(input, i) =>
         match nth_error shareList i with
         | None => JS.Throw (JS.TypeError (JS.PropertyOfUndefined "add"))
         | Some share => u <- Gfp.fromUserInput input ;; Gfp.add share u
         end).
  rewrite (mapM_ext _ (fun x => y <- addShare x ;;
                                JS.Return (Gfp.toNativeHexString y))).
  - rewrite mapM_fmap. destruct (JS.mapM addShare _); reflexivity.
  - intros [input i] _. unfold addShare.
    destruct (nth_error shareList i) as [share|]; [|reflexivity].
    destruct (Gfp.fromUserInput input) as [u|e]; [|reflexivity].
    cbn [JS.bind]. destruct (Gfp.add share u); reflexivity.
Qed.

(** X28.  The callback of [setupSendInputShareStream] gives the
    count-mismatch error, and sends nothing, when inputs and shares differ
    in number.  With equal numbers, on accepted user integers, it sends
    for every input the wire hex string of share plus input, the values
    [sendInputsWithShares] computes, and [Gfp.fromSpdz] reads every string
    back as that value. *)
Theorem shareInputs_sends inputList shareList :
  Forall (fun v => Gfp.MIN_NEGATIVE <= v < Gfp.GFP_NEGATIVE_BOUNDARY)
         inputList ->
  Forall (fun s => 0 <= Gfp.val s) shareList ->
  if Nat.eqb (List.length inputList) (List.length shareList)
  then exists sent,
      RestApi.addShares inputList shareList = JS.Return sent
      /\ TransformStreams.shareInputs inputList shareList
         = JS.Return (TransformStreams.Next (map Gfp.toNativeHexString sent))
      /\ JS.mapM Gfp.fromSpdz (map Gfp.toNativeHexString sent)
         = JS.Return sent
  else TransformStreams.shareInputs inputList shareList
       = JS.Return
           (TransformStreams.BaconError
              (TransformStreams.CountMismatch (List.length inputList)
                                              (List.length shareList))).
Proof.
  intros Hin Hsh. rewrite shareInputs_addShares.
  destruct (Nat.eqb_spec (List.length inputList) (List.length shareList))
    as [Hlen | _]; [|reflexivity].
  cbn [negb]. rewrite (addShares_Return _ _ Hlen Hin Hsh).
  eexists. split; [reflexivity|]. split; [reflexivity|].
  set (sent := map _ (combine inputList shareList)).
  assert (Hsent : forall g, In g sent -> 0 <= Gfp.val g <= Gfp.GFP_PRIME).
  { intros g Hg. apply in_map_iff in Hg. destruct Hg as ([v s] & <- & _).
    cbn [Gfp.val].
    pose proof (Z.mod_pos_bound
                  (Gfp.val s + (v * Gfp.R) mod Gfp.GFP_PRIME) _
                  GFP_PRIME_pos).
    lia. }
  clearbody sent. induction sent as [|g sent IH]; [reflexivity|].
  cbn [map JS.mapM].
  rewrite (fromSpdz_hex g) by (apply Hsent; left; reflexivity).
  cbn [JS.bind]. rewrite IH by (intros h Hh; apply Hsent; right; exact Hh).
  reflexivity.
Qed.

Lemma shareInputs_sends_witness :
  exists sent,
    RestApi.addShares [1234] [Gfp.mk 0] = JS.Return sent
    /\ TransformStreams.shareInputs [1234] [Gfp.mk 0]
       = JS.Return (TransformStreams.Next (map Gfp.toNativeHexString sent))
    /\ JS.mapM Gfp.fromSpdz (map Gfp.toNativeHexString sent)
       = JS.Return sent.
Proof.
  apply (shareInputs_sends [1234] [Gfp.mk 0]).
  - repeat constructor; vm_compute; discriminate.
  - repeat constructor; vm_compute; discriminate.
Defined.

(** ** utility/verifyRequiredKeys.js *)

Lemma every_Return {A} (p : A -> JS.result bool) (q : A -> bool) l :
  (forall x, In x l -> p x = JS.Return (q x)) ->
  Utility.every p l = JS.Return (forallb q l).
Proof.
  induction l as [|x t IH]; intros Hp; [reflexivity|].
  cbn [Utility.every forallb]. rewrite (Hp x (or_introl eq_refl)).
  cbn [JS.bind]. destruct (q x); [|reflexivity].
  apply IH. intros y Hy. apply Hp. right. exact Hy.
Qed.

(** X29.  On an array of objects [verifyRequiredKeys] returns true exactly
    when the array is not empty and every object has every required key
    as an own property; it does not throw. *)
Theorem verifyRequiredKeys_every objects requiredKeys :
  exists answer,
    Utility.verifyRequiredKeys
      (Utility.ArrayOf (map Utility.Object objects)) requiredKeys
    = JS.Return answer
    /\ (answer = true
        <-> objects <> []
            /\ forall ownKeys key,
                 In ownKeys objects -> In key requiredKeys -> In key ownKeys).
Proof.
  unfold Utility.verifyRequiredKeys. rewrite length_map.
  destruct objects as [|o objects].
  - exists false. split; [reflexivity|].
    split; [discriminate | intros [H _]; congruence].
  - cbn [List.length Nat.eqb].
    rewrite (every_Return _
               (fun obj =>
                  match obj with
                  | Utility.Nullish => false
                  | Utility.Object ownKeys =>
                      forallb (fun key => existsb (String.eqb key) ownKeys)
                              requiredKeys
                  end)).
    + eexists. split; [reflexivity|].
      rewrite forallb_forall. split.
      * intros Hall. split; [discriminate|].
        intros ownKeys key Ho Hk.
        specialize (Hall (Utility.Object ownKeys) (in_map _ _ _ Ho)).
        cbn in Hall. rewrite forallb_forall in Hall.
        specialize (Hall key Hk). apply existsb_exists in Hall.
        destruct Hall as (k' & Hk' & Heq). apply String.eqb_eq in Heq.
        now subst k'.
      * intros [_ Hall] obj Hobj. apply in_map_iff in Hobj.
        destruct Hobj as (ownKeys & <- & Ho).
        apply forallb_forall. intros key Hk. apply existsb_exists.
        exists key. split; [now apply (Hall ownKeys) | apply String.eqb_refl].
    + intros obj Hobj. apply in_map_iff in Hobj.
      destruct Hobj as (ownKeys & <- & _).
      apply every_Return. intros key _. reflexivity.
Qed.
